(** * sglang_disagg: the benchmark-log reporter and the port waiter

    A shallow embedding of [benchmark_parser.py] and [socket_wait.py].

    Text is a list of characters, one [ascii] per code point, so the
    embedding covers logs written in Latin-1 (code points 0 to 255).
    Python integers are [Z].  Python floats are kept abstract, behind
    the class [Float]. *)

From Stdlib Require Import String Ascii DecimalString.
From Stdlib Require DecimalPos.
From Stdlib Require Import ZArith Lia Bool List.
From ITree Require ITree ITreeFacts Events.State Events.StateFacts Props.Leaf.
Import ListNotations.
Local Open Scope Z_scope.

(** A Python [str]. *)
Definition str : Type := list ascii.

(** String literals of the source, as [str]. *)
Definition L (s : string) : str := list_ascii_of_string s.

(** [a == b] *)
Fixpoint str_eqb (a b : str) : bool :=
  match a, b with
  | [], [] => true
  | x :: a', y :: b' => Ascii.eqb x y && str_eqb a' b'
  | _, _ => false
  end.

(* ================================================================= *)
(** ** The fragment of Python's [re] that the parser uses *)

Module Re.

(** Character classes over code points. *)

Definition code (c : ascii) : N := N_of_ascii c.

(** [\d]: among the first 256 code points only [0-9] are decimal digits. *)
Definition is_digit (c : ascii) : bool :=
  ((48 <=? code c) && (code c <=? 57))%N.

(** [\s] on a [str] pattern: Unicode white space, which below 256 is
    TAB, LF, VT, FF, CR, FS, GS, RS, US, SPACE, NEL and NBSP. *)
Definition is_space (c : ascii) : bool :=
  (((9 <=? code c) && (code c <=? 13))
   || ((28 <=? code c) && (code c <=? 32))
   || (code c =? 133) || (code c =? 160))%N.

(** [[^\s]] *)
Definition non_space (c : ascii) : bool := negb (is_space c).

Definition is_comma (c : ascii) : bool := (code c =? 44)%N.
Definition is_dot (c : ascii) : bool := (code c =? 46)%N.

(** [[\d,]] *)
Definition digit_comma (c : ascii) : bool := is_digit c || is_comma c.
(** [[\d\.]] *)
Definition digit_dot (c : ascii) : bool := is_digit c || is_dot c.
(** [[\d,\.]] *)
Definition digit_comma_dot (c : ascii) : bool :=
  is_digit c || is_comma c || is_dot c.

(** Every pattern of the source is a concatenation of literal text,
    [cls+] and capture groups [(cls+)], all quantifiers greedy. *)
Inductive item : Type :=
| Lit (s : str)
| Plus (cls : ascii -> bool)
| Group (cls : ascii -> bool).

Definition pattern : Type := list item.

(** [strip_prefix p s] is the rest of [s] after the literal [p]. *)
Fixpoint strip_prefix (p s : str) : option str :=
  match p, s with
  | [], _ => Some s
  | a :: p', b :: s' => if Ascii.eqb a b then strip_prefix p' s' else None
  | _ :: _, [] => None
  end.

Section Backtrack.
Context {R : Type}.

(** Greedy [cls+] with backtracking: consume as many characters of
    [cls] as there are, then give them back one at a time until the
    continuation [k] succeeds.  [taken] holds the characters consumed
    so far, last one first; [k] receives the text matched and the rest. *)
Fixpoint plus_bt (cls : ascii -> bool) (s : str) (taken : str)
         (k : str -> str -> option R) : option R :=
  match s with
  | c :: s' =>
      if cls c then
        match plus_bt cls s' (c :: taken) k with
        | Some r => Some r
        | None => k (rev (c :: taken)) s'
        end
      else None
  | [] => None
  end.
End Backtrack.

(** Match a pattern at the start of [s]; the result is the groups in
    pattern order and the unmatched rest.  [caps] is last group first. *)
Fixpoint match_here (p : pattern) (s : str) (caps : list str)
  : option (list str * str) :=
  match p with
  | [] => Some (rev caps, s)
  | Lit l :: p' =>
      match strip_prefix l s with
      | Some s' => match_here p' s' caps
      | None => None
      end
  | Plus cls :: p' =>
      plus_bt cls s [] (fun _ s' => match_here p' s' caps)
  | Group cls :: p' =>
      plus_bt cls s [] (fun g s' => match_here p' s' (g :: caps))
  end.

(** [re.search]: the match at the leftmost position that has one.
    The result is the list of groups, [m.group(1)] first. *)
Fixpoint search (p : pattern) (s : str) : option (list str) :=
  match match_here p s [] with
  | Some (gs, _) => Some gs
  | None =>
      match s with
      | [] => None
      | _ :: s' => search p s'
      end
  end.

(** [m.group(i)], for [i >= 1]. *)
Definition group (gs : list str) (i : nat) : str := nth (i - 1) gs [].

(** [sub in s] *)
Fixpoint contains (sub s : str) : bool :=
  match strip_prefix sub s with
  | Some _ => true
  | None =>
      match s with
      | [] => false
      | _ :: s' => contains sub s'
      end
  end.

(** [re.split] on a literal separator that cannot overlap itself.
    [skip] counts the separator's characters still to drop, [cur] is the
    piece being collected, last character first. *)
Fixpoint split_lit (sep : str) (s : str) (skip : nat) (cur : str) : list str :=
  match s with
  | [] => [rev cur]
  | c :: s' =>
      match skip with
      | S n => split_lit sep s' n cur
      | O =>
          match strip_prefix sep s with
          | Some _ => rev cur :: split_lit sep s' (length sep - 1) []
          | None => split_lit sep s' O (c :: cur)
          end
      end
  end.

Definition split (sep s : str) : list str := split_lit sep s O [].

End Re.

(* ================================================================= *)
(** ** Python values, exceptions and built-ins *)

Module Py.

Inductive exn : Type :=
| FileNotFoundError (msg : str)
| PermissionError (msg : str)
| OSError (msg : str)
| ValueError (msg : str)
| OverflowError (msg : str)
| TypeError (msg : str)
| KeyError (labels : list str).

(** [str(e)]; for a [KeyError] the labels stand for the message that
    pandas makes of them. *)
Definition exn_message (e : exn) : str :=
  match e with
  | FileNotFoundError m | PermissionError m | OSError m
  | ValueError m | OverflowError m | TypeError m => m
  | KeyError ls => concat ls
  end.

(** The outcome of an expression: a value, or an exception raised. *)
Inductive result (A : Type) : Type :=
| Ok (a : A)
| Raise (e : exn).
Arguments Ok {A} a.
Arguments Raise {A} e.

Definition bind {A B} (m : result A) (k : A -> result B) : result B :=
  match m with
  | Ok a => k a
  | Raise e => Raise e
  end.

(** [repr] of a string without quotes, backslashes or control characters. *)
Definition repr (s : str) : str := L "'" ++ s ++ L "'".

Definition digit_val (c : ascii) : Z := Z.of_N (Re.code c) - 48.

Definition int_of_digits (s : str) : Z :=
  fold_left (fun acc c => 10 * acc + digit_val c) s 0.

(** [str(n)], for an integer of at most 4300 digits: the numbers that
    the programs turn into text come from [int], from [len] and from
    the command line.  Above that, see [format_comma]. *)
Definition str_of_int (n : Z) : str := L (NilZero.string_of_int (Z.to_int n)).

(** The interpreter converts between integers and decimal text up to
    [sys.get_int_max_str_digits()] digits, 4300 unless it is changed,
    and raises [ValueError] above. *)
Definition max_str_digits : Z := 4300.

Definition within_limit (digits : str) : bool :=
  Z.of_nat (length digits) <=? max_str_digits.

Definition invalid_literal (s : str) : exn :=
  ValueError (L "invalid literal for int() with base 10: " ++ repr s).

Definition exceeds_limit_of (digits : str) : exn :=
  ValueError
    (L "Exceeds the limit (4300 digits) for integer string conversion: value has "
       ++ str_of_int (Z.of_nat (length digits))
       ++ L " digits; use sys.set_int_max_str_digits() to increase the limit").

(** [int(s)] for [s] made of decimal digits, the only strings the parser
    converts: the empty string is rejected, and so is a string of more
    digits than the limit, leading zeros counted. *)
Definition int (s : str) : result Z :=
  match s with
  | [] => Raise (invalid_literal s)
  | _ :: _ =>
      if forallb Re.is_digit s then
        if within_limit s then Ok (int_of_digits s)
        else Raise (exceeds_limit_of s)
      else Raise (invalid_literal s)
  end.

(** The white space that [int] drops around a number. *)
Definition is_int_space (c : ascii) : bool :=
  (((9 <=? Re.code c) && (Re.code c <=? 13))
   || (Re.code c =? 32) || (Re.code c =? 133) || (Re.code c =? 160))%N.

Fixpoint lstrip (s : str) : str :=
  match s with
  | c :: s' => if is_int_space c then lstrip s' else s
  | [] => []
  end.

Definition strip (s : str) : str := rev (lstrip (rev (lstrip s))).

(** The digits at the head of a text, where single underscores may
    stand between digits, and the rest of the text; [after_digit] tells
    whether the last character was a digit. *)
Fixpoint scan_digits (s : str) (after_digit : bool) : option (str * str) :=
  match s with
  | [] => if after_digit then Some ([], []) else None
  | c :: s' =>
      if Re.is_digit c then
        match scan_digits s' true with
        | Some (digits, rest) => Some (c :: digits, rest)
        | None => None
        end
      else if (Re.code c =? 95)%N then
        match after_digit, s' with
        | true, d :: _ => if Re.is_digit d then scan_digits s' false else None
        | _, _ => None
        end
      else if after_digit then Some ([], s) else None
  end.

(** [int(s)] for any text [s]: white space around the number is
    dropped, a sign may come first, and single underscores may stand
    between digits; the limit counts the digits, and is looked at
    before what follows them. *)
Definition int_of_text (s : str) : result Z :=
  let t := strip s in
  let '(sign, body) :=
    match t with
    | c :: body =>
        if (Re.code c =? 45)%N then (-1, body)
        else if (Re.code c =? 43)%N then (1, body)
        else (1, t)
    | [] => (1, t)
    end in
  match scan_digits body false with
  | Some (digits, rest) =>
      if within_limit digits then
        match rest with
        | [] => Ok (sign * int_of_digits digits)
        | _ :: _ => Raise (invalid_literal s)
        end
      else Raise (exceeds_limit_of digits)
  | None => Raise (invalid_literal s)
  end.

(** [s.replace(',', '')] *)
Definition remove_commas (s : str) : str :=
  filter (fun c => negb (Re.is_comma c)) s.

(** The text [float] accepts among strings of digits and dots: at least
    one digit and at most one dot. *)
Definition is_float_literal (s : str) : bool :=
  forallb Re.digit_dot s && existsb Re.is_digit s
  && (Nat.leb (length (filter Re.is_dot s)) 1).

(** Insert a comma before every complete group of three digits; the
    input is the digits last one first, [n] the digits already placed
    in the current group. *)
Fixpoint group3 (rev_digits : str) (n : nat) (acc : str) : str :=
  match rev_digits with
  | [] => acc
  | d :: rest =>
      match n with
      | 3%nat => group3 rest 1 (d :: L "," ++ acc)
      | _ => group3 rest (S n) (d :: acc)
      end
  end.

(** The text of [n] with a comma before every three digits. *)
Definition format_grouped (n : Z) : str :=
  (if n <? 0 then L "-" else [])
    ++ group3 (rev (str_of_int (Z.abs n))) 0 [].

Definition exceeds_limit : exn :=
  ValueError
    (L "Exceeds the limit (4300 digits) for integer string conversion; use sys.set_int_max_str_digits() to increase the limit").

(** [f"{n:,}"]: the grouped text, for an integer within the limit. *)
Definition format_comma (n : Z) : result str :=
  if within_limit (str_of_int (Z.abs n)) then Ok (format_grouped n)
  else Raise exceeds_limit.

(** [float(n)] raises [OverflowError] from this magnitude on: the
    integers that round to [2^1024] or more. *)
Definition float_overflow : Z := 2 ^ 1024 - 2 ^ 970.

End Py.

Declare Scope py_scope.
Delimit Scope py_scope with py.
Notation "x <- m ;; k" := (Py.bind m (fun x => k))
  (at level 61, m at next level, right associativity) : py_scope.
Declare Scope prog_scope.

(* ================================================================= *)
(** ** benchmark_parser.py *)

Module BenchmarkParser.
Import Py.
Local Open Scope py_scope.

(** Python's floats, as far as the program uses them: the type, [float]
    on a string that is a float literal, [float] on an integer below
    [float_overflow] in magnitude (rounded to the nearest double),
    [f"{x:.2f}"], and [int(x)] (truncation, [OverflowError] on an
    infinity). *)
Class Float : Type := {
  pyfloat : Type;
  float_of_literal : str -> pyfloat;
  float_of_int : Z -> pyfloat;
  format_2f : pyfloat -> str;
  int_of_float : pyfloat -> result Z
}.

Section Parser.
Context `{Float}.

(** [float(s)] for [s] made of digits and dots. *)
Definition float (s : str) : result pyfloat :=
  if is_float_literal s then Ok (float_of_literal s)
  else Raise (ValueError (L "could not convert string to float: " ++ repr s)).

(** The values found in the result dicts and in the frame's cells. *)
Inductive cell : Type :=
| CStr (s : str)
| CInt (n : Z)
| CFloat (x : pyfloat)
| CNone.

Definition of_opt_int (o : option Z) : cell :=
  match o with Some n => CInt n | None => CNone end.
Definition of_opt_float (o : option pyfloat) : cell :=
  match o with Some x => CFloat x | None => CNone end.

(** A dict with string keys, in insertion order. *)
Definition dict : Type := list (str * cell).

(** The patterns of [parse_benchmark_log]. *)

Definition header_re : Re.pattern :=
  [Re.Lit (L "prompts"); Re.Plus Re.is_space;
   Re.Lit (L "isl"); Re.Plus Re.is_space; Re.Group Re.is_digit; Re.Plus Re.is_space;
   Re.Lit (L "osl"); Re.Plus Re.is_space; Re.Group Re.is_digit; Re.Plus Re.is_space;
   Re.Lit (L "con"); Re.Plus Re.is_space; Re.Group Re.is_digit; Re.Plus Re.is_space;
   Re.Lit (L "model"); Re.Plus Re.is_space; Re.Group Re.non_space; Re.Plus Re.is_space;
   Re.Lit (L "xP="); Re.Group Re.is_digit; Re.Plus Re.is_space;
   Re.Lit (L "yD="); Re.Group Re.is_digit].

(** [label\s+(cls+)] *)
Definition field_re (label : string) (cls : ascii -> bool) : Re.pattern :=
  [Re.Lit (L label); Re.Plus Re.is_space; Re.Group cls].

Definition prompts_per_group_re := field_re "Prompts per group:" Re.is_digit.
Definition total_prompts_re := field_re "Total prompts:" Re.is_digit.
Definition total_input_tokens_re := field_re "Total input tokens:" Re.digit_comma.
Definition total_output_tokens_re := field_re "Total output tokens:" Re.digit_comma.

Definition successful_requests_re := field_re "Successful requests:" Re.digit_comma.
Definition duration_re := field_re "Benchmark duration (s):" Re.digit_dot.
Definition req_throughput_re := field_re "Request throughput (req/s):" Re.digit_dot.
Definition input_tok_throughput_re :=
  field_re "Input token throughput (tok/s):" Re.digit_comma_dot.
Definition output_tok_throughput_re :=
  field_re "Output token throughput (tok/s):" Re.digit_comma_dot.
Definition total_tok_throughput_re :=
  field_re "Total token throughput (tok/s):" Re.digit_comma_dot.
Definition mean_e2e_re := field_re "Mean E2E Latency (ms):" Re.digit_comma_dot.
Definition mean_ttft_re := field_re "Mean TTFT (ms):" Re.digit_comma_dot.
Definition mean_itl_re := field_re "Mean ITL (ms):" Re.digit_comma_dot.

Definition result_marker : str :=
  L "============ Serving Benchmark Result ============".

(** The nested [extract(pattern)], closed over [run]. *)
Definition extract (run : str) (pattern : Re.pattern) : result (option pyfloat) :=
  match Re.search pattern run with
  | Some m => x <- float (remove_commas (Re.group m 1)) ;; Ok (Some x)
  | None => Ok None
  end.

(** [int(m.group(1))] when the pattern is found, else [None]. *)
Definition search_int (run : str) (pattern : Re.pattern) : result (option Z) :=
  match Re.search pattern run with
  | Some m => n <- int (Re.group m 1) ;; Ok (Some n)
  | None => Ok None
  end.

(** [int(m.group(1).replace(',', ''))] when the pattern is found. *)
Definition search_int_commas (run : str) (pattern : Re.pattern)
  : result (option Z) :=
  match Re.search pattern run with
  | Some m => n <- int (remove_commas (Re.group m 1)) ;; Ok (Some n)
  | None => Ok None
  end.

(** The body of the loop over the runs: [None] when the run is skipped
    ([continue], or no result block), the dict appended otherwise. *)
Definition parse_run (run : str) : result (option dict) :=
  match Re.search header_re run with
  | None => Ok None
  | Some m =>
      question_len <- int (Re.group m 1) ;;
      output_len <- int (Re.group m 2) ;;
      concurrency <- int (Re.group m 3) ;;
      let model := Re.group m 4 in
      xp <- int (Re.group m 5) ;;
      yd <- int (Re.group m 6) ;;
      prompts_per_group <- search_int run prompts_per_group_re ;;
      total_prompts <- search_int run total_prompts_re ;;
      total_input_tokens <- search_int_commas run total_input_tokens_re ;;
      total_output_tokens <- search_int_commas run total_output_tokens_re ;;
      if Re.contains result_marker run then
        successful_requests <- extract run successful_requests_re ;;
        duration <- extract run duration_re ;;
        req_throughput <- extract run req_throughput_re ;;
        input_tok_throughput <- extract run input_tok_throughput_re ;;
        output_tok_throughput <- extract run output_tok_throughput_re ;;
        total_tok_throughput <- extract run total_tok_throughput_re ;;
        mean_e2e <- extract run mean_e2e_re ;;
        mean_ttft <- extract run mean_ttft_re ;;
        mean_itl <- extract run mean_itl_re ;;
        Ok (Some
          [(L "Model", CStr model);
           (L "xP_yD", CStr (str_of_int xp ++ L "p" ++ str_of_int yd ++ L "d"));
           (L "ISL", CInt question_len);
           (L "OSL", CInt output_len);
           (L "Concurrency", CInt concurrency);
           (L "Prompts_Group", of_opt_int prompts_per_group);
           (L "Total_Prompts", of_opt_int total_prompts);
           (L "Total_Input_Tokens", of_opt_int total_input_tokens);
           (L "Total_Output_Tokens", of_opt_int total_output_tokens);
           (L "Request_Throughput_req_s", of_opt_float req_throughput);
           (L "Input_Token_Throughput_tok_s", of_opt_float input_tok_throughput);
           (L "Output_Token_Throughput_tok_s", of_opt_float output_tok_throughput);
           (L "Total_Token_Throughput_tok_s", of_opt_float total_tok_throughput);
           (L "Mean_E2E_Latency_ms", of_opt_float mean_e2e);
           (L "Mean_TTFT_ms", of_opt_float mean_ttft);
           (L "Mean_ITL_ms", of_opt_float mean_itl)])
      else Ok None
  end.

(** [for run in runs: ...], with [results] the list built so far. *)
Fixpoint parse_runs (runs : list str) (results : list dict)
  : result (list dict) :=
  match runs with
  | [] => Ok results
  | run :: rest =>
      r <- parse_run run ;;
      parse_runs rest (match r with
                       | Some d => results ++ [d]
                       | None => results
                       end)
  end.

(** [re.split(r'\[RUNNING\]', content)[1:]] *)
Definition runs_of (content : str) : list str :=
  tl (Re.split (L "[RUNNING]") content).

(** [parse_benchmark_log] after the file has been read. *)
Definition parse_content (content : str) : result (list dict) :=
  parse_runs (runs_of content) [].

(** *** The pandas frame

    A frame is its columns in order, each a label and one value per row.
    [None] and NaN are both [CNone]. *)

Definition dataframe : Type := list (str * list cell).

(** [df.columns] *)
Definition columns (df : dataframe) : list str := map fst df.

(** [col in df.columns] *)
Definition has_column (df : dataframe) (col : str) : bool :=
  existsb (str_eqb col) (columns df).

Definition dict_get (d : dict) (k : str) : cell :=
  match find (fun kv => str_eqb (fst kv) k) d with
  | Some (_, v) => v
  | None => CNone
  end.

Fixpoint add_keys (seen ks : list str) : list str :=
  match ks with
  | [] => seen
  | k :: ks' =>
      if existsb (str_eqb k) seen then add_keys seen ks'
      else add_keys (seen ++ [k]) ks'
  end.

(** The type that pandas gives a column: a column without text that
    has a gap or a float is a column of floats, in which every integer
    is turned into the nearest float; any other column keeps its
    values.  This is for integers that fit in 64 bits, as the values of
    a column of integers do. *)
Definition upcast (x : cell) : cell :=
  match x with
  | CInt n => CFloat (float_of_int n)
  | _ => x
  end.

Definition infer_column (xs : list cell) : list cell :=
  if forallb (fun x => match x with CStr _ => false | _ => true end) xs
     && existsb (fun x => match x with CNone | CFloat _ => true | _ => false end) xs
  then map upcast xs
  else xs.

(** [pd.DataFrame(results)] on a list of dicts: one column per key, in
    order of first appearance, one row per dict, each column with the
    type that pandas gives it. *)
Definition DataFrame (results : list dict) : dataframe :=
  map (fun k => (k, infer_column (map (fun d => dict_get d k) results)))
      (fold_left (fun seen d => add_keys seen (map fst d)) results []).

(** [df[col]] *)
Definition column (df : dataframe) (col : str) : list cell :=
  match find (fun kv => str_eqb (fst kv) col) df with
  | Some (_, xs) => xs
  | None => []
  end.

(** [df[columns]] with a list of labels: [KeyError] if one is missing. *)
Definition getitem (df : dataframe) (cols : list str) : result dataframe :=
  match filter (fun c => negb (has_column df c)) cols with
  | [] => Ok (map (fun c => (c, column df c)) cols)
  | missing => Raise (KeyError missing)
  end.

(** [df[col] = xs] for an existing column. *)
Definition setitem (df : dataframe) (col : str) (xs : list cell) : dataframe :=
  map (fun kv => if str_eqb (fst kv) col then (col, xs) else kv) df.

(** [series.apply(f)] *)
Fixpoint apply (f : cell -> result cell) (xs : list cell) : result (list cell) :=
  match xs with
  | [] => Ok []
  | x :: xs' => y <- f x ;; ys <- apply f xs' ;; Ok (y :: ys)
  end.

(** [pd.notna(x)] *)
Definition notna (x : cell) : bool :=
  match x with CNone => false | _ => true end.

(** [lambda x: f"{x:.2f}" if pd.notna(x) else x] *)
Definition fmt_float (x : cell) : result cell :=
  if notna x then
    match x with
    | CFloat v => Ok (CStr (format_2f v))
    | CInt n =>
        if Z.abs n <? float_overflow then Ok (CStr (format_2f (float_of_int n)))
        else Raise (OverflowError (L "int too large to convert to float"))
    | CStr _ => Raise (ValueError (L "Unknown format code 'f' for object of type 'str'"))
    | CNone => Raise (TypeError (L "unsupported format string passed to NoneType.__format__"))
    end
  else Ok x.

(** [int(x)] on a cell. *)
Definition int_of_cell (x : cell) : result Z :=
  match x with
  | CInt n => Ok n
  | CFloat v => int_of_float v
  | CStr s => int_of_text s
  | CNone => Raise (TypeError (L "int() argument must be a string, a bytes-like object or a real number, not 'NoneType'"))
  end.

(** [lambda x: f"{int(x):,}" if pd.notna(x) else x] *)
Definition fmt_int (x : cell) : result cell :=
  if notna x then n <- int_of_cell x ;; s <- format_comma n ;; Ok (CStr s)
  else Ok x.

Definition numeric_cols : list str :=
  [L "Request Throughput (req/s)"; L "Input Token Throughput (tok/s)";
   L "Output Token Throughput (tok/s)"; L "Total Token Throughput (tok/s)";
   L "Mean E2E Latency (ms)"; L "Mean TTFT (ms)"; L "Mean ITL (ms)"].

Definition integer_cols : list str :=
  [L "Total Input Tokens"; L "Total Output Tokens"].

(** *** The command line program *)

(** The namespace returned by [parser.parse_args()]. *)
Record args : Type := {
  logfile : str;
  csv : option str;
  compact : bool;
  no_screen : bool
}.

(** What the program finds outside: the result of opening and reading a
    path, and whether writing a CSV file to a path fails. *)
Record env : Type := {
  read_file : str -> result str;
  write_file : str -> result unit
}.

(** What is printed: text, or the table of a frame ([df.to_string]). *)
Inductive output : Type :=
| Text (s : str)
| Table (df : dataframe).

(** What the program does that is visible outside, in order. *)
Inductive event : Type :=
| Open (path : str)
| Stdout (o : output)
| Stderr (s : str)
| Usage (msg : str)
| ToCsv (path : str) (df : dataframe).

(** How a run stops early: [sys.exit(code)], or an exception that
    nothing catches. *)
Inductive stop : Type :=
| SysExit (code : Z)
| Uncaught (e : exn).

(** Frames are objects: a variable holds a reference, and an assignment
    to a column changes the frame for every variable that holds it.
    The heap lists the frames that exist, each at its reference. *)
Definition ref : Type := nat.
Definition heap : Type := list dataframe.

Fixpoint update (h : heap) (r : ref) (v : dataframe) : heap :=
  match h, r with
  | [], _ => []
  | _ :: h', O => v :: h'
  | x :: h', S r' => x :: update h' r' v
  end.

(** What a computation leaves: the events, and a value or a stop. *)
Definition outcome (A : Type) : Type := (list event * (stop + A))%type.

(** A computation of [main], from the heap before to the heap after. *)
Definition prog (A : Type) : Type := heap -> outcome A * heap.

Definition pret {A} (a : A) : prog A := fun h => (([], inr a), h).

Definition pbind {A B} (m : prog A) (k : A -> prog B) : prog B :=
  fun h =>
    match m h with
    | ((tr, inl s), h') => ((tr, inl s), h')
    | ((tr, inr a), h') =>
        let '((tr', r), h'') := k a h' in ((tr ++ tr', r), h'')
    end.

Definition emit (e : event) : prog unit := fun h => (([e], inr tt), h).
Definition sys_exit {A} (code : Z) : prog A :=
  fun h => (([], inl (SysExit code)), h).

Definition lift {A} (r : result A) : prog A :=
  fun h =>
    match r with
    | Ok a => (([], inr a), h)
    | Raise e => (([], inl (Uncaught e)), h)
    end.

(** [try: body except ... as e: handler]; [sys.exit] is not an
    [Exception] and passes through. *)
Definition try_except {A} (body : prog A) (handler : exn -> prog A) : prog A :=
  fun h =>
    match body h with
    | ((tr, inl (Uncaught e)), h') =>
        let '((tr', r), h'') := handler e h' in ((tr ++ tr', r), h'')
    | other => other
    end.

Definition when (b : bool) (m : prog unit) : prog unit :=
  if b then m else pret tt.

(** A new frame, the frame behind a reference, and its replacement. *)
Definition new_frame (v : dataframe) : prog ref :=
  fun h => (([], inr (length h)), h ++ [v]).
Definition deref (r : ref) : prog dataframe :=
  fun h => (([], inr (nth r h [])), h).
Definition assign (r : ref) (v : dataframe) : prog unit :=
  fun h => (([], inr tt), update h r v).

(** The run of a program from an empty heap. *)
Definition exec {A} (p : prog A) : outcome A := fst (p []).

(** The exit status of the process. *)
Definition exit_status {A} (o : outcome A) : Z :=
  match snd o with
  | inl (SysExit code) => code
  | inl (Uncaught _) => 1
  | inr _ => 0
  end.

Definition trace {A} (o : outcome A) : list event := fst o.

(** Truth value of [args.csv]: [None] and the empty string are false. *)
Definition truthy (o : option str) : bool :=
  match o with
  | Some (_ :: _) => true
  | _ => false
  end.

Definition nl : str := ["010"%char].

Definition compact_columns : list str :=
  [L "Model"; L "xP/yD"; L "ISL"; L "OSL"; L "Concurrency";
   L "Request Throughput (req/s)"; L "Total Token Throughput (tok/s)";
   L "Mean E2E Latency (ms)"; L "Mean TTFT (ms)"; L "Mean ITL (ms)"].

Section Main.
Variable E : env.

Notation "x <- m ;; k" := (pbind m (fun x => k))
  (at level 61, m at next level, right associativity) : prog_scope.
Notation "m ;; k" := (pbind m (fun _ => k))
  (at level 61, right associativity) : prog_scope.
Local Open Scope prog_scope.

(** [for col in cols: if col in df.columns: df[col] = df[col].apply(f)],
    on the frame itself. *)
Fixpoint format_cols (f : cell -> result cell) (cols : list str) (df : ref)
  : prog unit :=
  match cols with
  | [] => pret tt
  | col :: cols' =>
      v <- deref df ;;
      when (has_column v col)
           (xs <- lift (apply f (column v col)) ;;
            assign df (setitem v col xs)) ;;
      format_cols f cols' df
  end.

(** [format_dataframe(df)] changes [df] in place and returns it. *)
Definition format_dataframe (df : ref) : prog ref :=
  format_cols fmt_float numeric_cols df ;;
  format_cols fmt_int integer_cols df ;;
  pret df.

(** [pd.DataFrame(results)] *)
Definition DataFrame_new (results : list dict) : prog ref :=
  new_frame (DataFrame results).

(** [df[columns]]: a new frame with the columns asked for. *)
Definition select (df : ref) (cols : list str) : prog ref :=
  v <- deref df ;;
  v' <- lift (getitem v cols) ;;
  new_frame v'.

(** [df.copy()] *)
Definition copy (df : ref) : prog ref :=
  v <- deref df ;;
  new_frame v.

(** [print(s)] and [print(s, file=sys.stderr)] *)
Definition print (s : str) : prog unit := emit (Stdout (Text s)).
Definition eprint (s : str) : prog unit := emit (Stderr s).

(** [print(df.to_string(index=False))] *)
Definition print_table (df : ref) : prog unit :=
  v <- deref df ;;
  emit (Stdout (Table v)).

(** [df.to_csv(path, index=False)] *)
Definition to_csv (df : ref) (path : str) : prog unit :=
  v <- deref df ;;
  lift (write_file E path) ;;
  emit (ToCsv path v).

(** [parser.error(msg)]: usage and message on the error stream, exit 2. *)
Definition parser_error {A} (msg : str) : prog A :=
  emit (Usage msg) ;; sys_exit 2.

Definition parse_benchmark_log (logfile : str) : prog (list dict) :=
  emit (Open logfile) ;;
  content <- lift (read_file E logfile) ;;
  lift (parse_content content).

Definition main (a : args) : prog unit :=
  when (no_screen a && negb (truthy (csv a)))
       (parser_error (L "--no-screen requires --csv option")) ;;
  results <-
    try_except (parse_benchmark_log (logfile a))
      (fun e =>
         match e with
         | FileNotFoundError _ =>
             eprint (L "Error: File '" ++ logfile a ++ L "' not found.") ;;
             sys_exit 1
         | _ =>
             eprint (L "Error parsing log file: " ++ exn_message e) ;;
             sys_exit 1
         end) ;;
  when (match results with [] => true | _ => false end)
       (eprint (L "No benchmark results found in the log file.") ;;
        sys_exit 1) ;;
  df <- DataFrame_new results ;;
  df <- (if compact a then select df compact_columns else pret df) ;;
  df_copy <- copy df ;;
  display_df <- format_dataframe df_copy ;;
  when (negb (no_screen a))
       (print (L "Benchmark Results Summary:") ;;
        print (repeat "="%char 120) ;;
        print_table display_df ;;
        print (nl ++ L "Total runs parsed: "
                  ++ str_of_int (Z.of_nat (length results)))) ;;
  match csv a with
  | Some (c :: path) =>
      try_except
        (to_csv df (c :: path) ;;
         when (negb (no_screen a))
              (print (nl ++ L "Results saved to: " ++ (c :: path))))
        (fun e =>
           eprint (L "Error saving CSV file: " ++ exn_message e) ;;
           sys_exit 1)
  | _ => pret tt
  end.

End Main.

End Parser.

End BenchmarkParser.

(* ================================================================= *)
(** ** socket_wait.py *)

Module SocketWait.
Import ITree.ITree ITree.ITreeFacts ITree.Events.State ITree.Events.StateFacts.
Import ITreeNotations.
Local Open Scope itree_scope.

(** What the script asks of its environment.  [ConnectEx] stands for the
    body of [is_port_open]: a fresh TCP socket, [settimeout],
    [connect_ex] (whose error number is the answer: 0 for a connection
    made, the error of a refusal, a timeout or an unreachable host
    otherwise) and the close at the end of the [with] block. *)
Variant netE : Type -> Type :=
| ConnectEx (host : str) (port timeout : Z) : netE Z
| Sleep (seconds : Z) : netE unit
| Print (s : str) : netE unit.

Definition is_port_open (host : str) (port timeout : Z) : itree netE bool :=
  rc <- ITree.trigger (ConnectEx host port timeout) ;;
  Ret (rc =? 0).

(** [while is_port_open(host, port): time.sleep(check_interval)] *)
Definition poll (host : str) (port check_interval : Z) : itree netE unit :=
  ITree.iter
    (fun _ : unit =>
       open <- is_port_open host port 2 ;;
       if open : bool
       then ITree.trigger (Sleep check_interval) ;; Ret (inl tt)
       else Ret (inr tt))
    tt.

Definition waiting_msg (host : str) (port : Z) : str :=
  L "Waiting while port " ++ Py.str_of_int port ++ L " on " ++ host
    ++ L " is open...".

Definition closed_msg (host : str) (port : Z) : str :=
  L "Port " ++ Py.str_of_int port ++ L " on " ++ host ++ L " is now closed.".

Definition wait_while_port_open (host : str) (port check_interval : Z)
  : itree netE unit :=
  ITree.trigger (Print (waiting_msg host port)) ;;
  poll host port check_interval ;;
  ITree.trigger (Print (closed_msg host port)).

(** The script: the call with the default interval of 5 seconds, then
    the end of the module, that is exit status 0. *)
Definition script (remote_ip : str) (remote_port : Z) : itree netE Z :=
  wait_while_port_open remote_ip remote_port 5 ;;
  Ret 0.

(** The environment: [outcomes k] is the error number that the k-th
    connection attempt returns, 0 for a connection made. *)
Inductive action : Type :=
| Attempt (host : str) (port timeout : Z)
| Slept (seconds : Z)
| Printed (s : str).

Record world : Type := {
  attempts : nat;
  log : list action
}.

Definition record (a : action) (w : world) : world :=
  {| attempts := attempts w; log := log w ++ [a] |}.

Definition handle (outcomes : nat -> Z)
  : netE ~> Monads.stateT world (itree void1) :=
  fun _ e w =>
    match e with
    | ConnectEx h p t =>
        Ret ({| attempts := S (attempts w); log := log w ++ [Attempt h p t] |},
             outcomes (attempts w))
    | Sleep s => Ret (record (Slept s) w, tt)
    | Print s => Ret (record (Printed s) w, tt)
    end.

Definition run {R} (outcomes : nat -> Z) (t : itree netE R)
  : itree void1 (world * R) :=
  interp_state (handle outcomes) t {| attempts := 0; log := [] |}.

(** [n] rounds of the loop: an attempt, then a sleep. *)
Fixpoint rounds (host : str) (port interval : Z) (n : nat) : list action :=
  match n with
  | O => []
  | S n' => Attempt host port 2 :: Slept interval :: rounds host port interval n'
  end.

Definition count_sleeps (l : list action) : nat :=
  length (filter (fun a => match a with Slept _ => true | _ => false end) l).

(** What the script has done when it ends after [n] attempts that
    connected and one that failed. *)
Definition final_log (host : str) (port : Z) (n : nat) : list action :=
  Printed (waiting_msg host port)
    :: rounds host port 5 n
    ++ [Attempt host port 2; Printed (closed_msg host port)].

(** The port is open twice, then the connection is refused. *)
Definition open_twice (j : nat) : Z := if (j <? 2)%nat then 0 else 111.

End SocketWait.

(* ================================================================= *)
(** ** A model of the floats, and sample inputs *)

(** Decimal numbers [mantissa / 10^scale], without the rounding to
    binary: an instance of [Float] on which the program can be run. *)
Module Decimal.
Import Py.

Record t : Type := {
  mantissa : Z;
  scale : nat
}.

(** The characters after the first dot. *)
Fixpoint after_dot (s : str) : str :=
  match s with
  | [] => []
  | c :: s' => if Re.is_dot c then s' else after_dot s'
  end.

Definition of_literal (s : str) : t :=
  {| mantissa := int_of_digits (filter Re.is_digit s);
     scale := length (after_dot s) |}.

Definition of_int (n : Z) : t := {| mantissa := n; scale := 0 |}.

(** [n / d] rounded to the nearest integer, ties to even. *)
Definition round_half_even (n d : Z) : Z :=
  let q := n / d in
  let r := n mod d in
  if 2 * r <? d then q
  else if d <? 2 * r then q + 1
  else if Z.even q then q else q + 1.

(** The number in hundredths. *)
Definition hundredths (x : t) : Z :=
  match scale x with
  | 0%nat => 100 * mantissa x
  | 1%nat => 10 * mantissa x
  | S (S k) => round_half_even (mantissa x) (10 ^ Z.of_nat k)
  end.

Definition two_digits (n : Z) : str :=
  if n <? 10 then L "0" ++ str_of_int n else str_of_int n.

Definition format_2f (x : t) : str :=
  str_of_int (hundredths x / 100) ++ L "." ++ two_digits (hundredths x mod 100).

Definition to_int (x : t) : result Z :=
  Ok (mantissa x / 10 ^ Z.of_nat (scale x)).

#[export] Instance model : BenchmarkParser.Float := {|
  BenchmarkParser.pyfloat := t;
  BenchmarkParser.float_of_literal := of_literal;
  BenchmarkParser.float_of_int := of_int;
  BenchmarkParser.format_2f := format_2f;
  BenchmarkParser.int_of_float := to_int
|}.

End Decimal.

Module Sample.
Import Py BenchmarkParser.

(** A log with one complete run, one run without a result block and one
    piece without a header. *)
Definition log : str := L "warming up
[RUNNING] prompts isl 1024 osl 128 con 16 model deepseek-r1 xP=1 yD=2
Prompts per group: 10
Total prompts: 160
Total input tokens: 1,234,567
============ Serving Benchmark Result ============
Successful requests: 160
Benchmark duration (s): 12.5
Request throughput (req/s): 12.3456
Total token throughput (tok/s): 1,234.5
Mean TTFT (ms): 45.678
[RUNNING] prompts isl 1 osl 2 con 3 model m xP=1 yD=2
interrupted
[RUNNING] nothing to see
".

(** A complete run whose prompt count is written with a comma. *)
Definition run_with_comma : str := L " prompts isl 1 osl 2 con 3 model m xP=1 yD=2
Total prompts: 1,234
============ Serving Benchmark Result ============
".

(** A run without a result block whose token count is just a comma. *)
Definition log_with_bare_comma : str :=
  L "[RUNNING] prompts isl 1 osl 2 con 3 model m xP=1 yD=2
Total input tokens: ,
".

(** A complete run with a latency that is not a number. *)
Definition log_with_two_dots : str :=
  L "[RUNNING] prompts isl 1 osl 2 con 3 model m xP=1 yD=2
============ Serving Benchmark Result ============
Mean TTFT (ms): 1.2.3
".

(** The first segment of [log], and what the parser makes of the log
    with decimal numbers for floats. *)
Definition complete_run : str := hd [] (runs_of log).

Definition records : list (@dict Decimal.model) :=
  Eval cbv -[Decimal.model float_of_literal pyfloat] in
    match @parse_content Decimal.model log with
    | Ok rs => rs
    | Raise _ => []
    end.

Definition path : str := L "bench.log".

(** The file system holds [content] at [path] and nothing else; every
    write succeeds. *)
Definition disk (content : str) : env := {|
  read_file := fun p =>
    if str_eqb p path then Ok content
    else Raise (FileNotFoundError (L "[Errno 2] No such file or directory"));
  write_file := fun _ => Ok tt
|}.

(** The log exists and may not be read. *)
Definition locked_disk : env := {|
  read_file := fun _ =>
    Raise (PermissionError (L "[Errno 13] Permission denied: 'bench.log'"));
  write_file := fun _ => Ok tt
|}.

(** The log can be read, the CSV file cannot be written. *)
Definition read_only_disk : env := {|
  read_file := fun _ => Ok log;
  write_file := fun _ => Raise (PermissionError (L "[Errno 13] Permission denied: 'out.csv'"))
|}.

Definition plain : args :=
  {| logfile := path; csv := None; compact := false; no_screen := false |}.
Definition with_compact : args :=
  {| logfile := path; csv := None; compact := true; no_screen := false |}.
Definition with_csv : args :=
  {| logfile := path; csv := Some (L "out.csv"); compact := false;
     no_screen := false |}.
Definition with_compact_csv : args :=
  {| logfile := path; csv := Some (L "out.csv"); compact := true;
     no_screen := false |}.
Definition with_no_screen : args :=
  {| logfile := path; csv := None; compact := false; no_screen := true |}.
Definition elsewhere : args :=
  {| logfile := L "missing.log"; csv := None; compact := false;
     no_screen := false |}.

End Sample.

(* ================================================================= *)
(** ** The vocabulary of the properties *)

Module Spec.
Import Re Py BenchmarkParser.

(** *** The language of a pattern *)

(** [matches p w gs]: the whole of [w] is matched by [p], and the groups
    capture [gs]. *)
Inductive matches : pattern -> str -> list str -> Prop :=
| matches_nil : matches [] [] []
| matches_lit l p w gs :
    matches p w gs -> matches (Lit l :: p) (l ++ w) gs
| matches_plus cls p g w gs :
    g <> [] -> forallb cls g = true -> matches p w gs ->
    matches (Plus cls :: p) (g ++ w) gs
| matches_group cls p g w gs :
    g <> [] -> forallb cls g = true -> matches p w gs ->
    matches (Group cls :: p) (g ++ w) (g :: gs).

(** [label\s+(cls+)] *)
Definition labelled (label : str) (cls : ascii -> bool) : pattern :=
  [Lit label; Plus is_space; Group cls].

(** The first character of [post], if any, is outside [cls]. *)
Definition stops (cls : ascii -> bool) (post : str) : Prop :=
  match post with
  | [] => True
  | c :: _ => cls c = false
  end.

(** The text [s] starts with the label, white space and the value [g],
    and [g] is all of the run of [cls] found there. *)
Definition field_at (label : str) (cls : ascii -> bool) (s g : str) : Prop :=
  exists ws post,
    s = label ++ ws ++ g ++ post
    /\ ws <> [] /\ forallb is_space ws = true
    /\ g <> [] /\ forallb cls g = true /\ stops cls post.

(** [g] is the value at the first place of [s] where the field is. *)
Definition first_field (label : str) (cls : ascii -> bool) (s g : str) : Prop :=
  exists pre s',
    s = pre ++ s' /\ field_at label cls s' g
    /\ forall pre1 pre2 g', pre = pre1 ++ pre2 -> pre2 <> [] ->
         ~ field_at label cls (pre2 ++ s') g'.

(** The field is nowhere in [s]. *)
Definition no_field (label : str) (cls : ascii -> bool) (s : str) : Prop :=
  forall pre s' g, s = pre ++ s' -> ~ field_at label cls s' g.

(** *** Segments *)

Definition header_found (run : str) : Prop :=
  exists pre w post gs, run = pre ++ w ++ post /\ matches header_re w gs.

Definition marker_found (run : str) : Prop :=
  exists pre post, run = pre ++ result_marker ++ post.

(** The optional numeric fields of a record: the key, the label in the
    log, the characters of the value, and whether it is a count. *)
Inductive kind : Type := Count | Metric.

Definition optional_fields : list (string * string * (ascii -> bool) * kind) :=
  [("Prompts_Group", "Prompts per group:", is_digit, Count);
   ("Total_Prompts", "Total prompts:", is_digit, Count);
   ("Total_Input_Tokens", "Total input tokens:", digit_comma, Count);
   ("Total_Output_Tokens", "Total output tokens:", digit_comma, Count);
   ("Request_Throughput_req_s", "Request throughput (req/s):", digit_dot, Metric);
   ("Input_Token_Throughput_tok_s", "Input token throughput (tok/s):",
    digit_comma_dot, Metric);
   ("Output_Token_Throughput_tok_s", "Output token throughput (tok/s):",
    digit_comma_dot, Metric);
   ("Total_Token_Throughput_tok_s", "Total token throughput (tok/s):",
    digit_comma_dot, Metric);
   ("Mean_E2E_Latency_ms", "Mean E2E Latency (ms):", digit_comma_dot, Metric);
   ("Mean_TTFT_ms", "Mean TTFT (ms):", digit_comma_dot, Metric);
   ("Mean_ITL_ms", "Mean ITL (ms):", digit_comma_dot, Metric)]%string.

(** The texts that denote a number: digits for a count, digits with at
    most one dot for a metric. *)
Definition is_number (k : kind) (s : str) : bool :=
  match k with
  | Count => match s with [] => false | _ => forallb is_digit s end
  | Metric => is_float_literal s
  end.

(** The fields converted with [int] after the commas are removed, and
    the metrics converted with [float]. *)
Definition token_fields : list (string * (ascii -> bool)) :=
  [("Total input tokens:", digit_comma);
   ("Total output tokens:", digit_comma)]%string.

Definition metric_fields : list (string * (ascii -> bool)) :=
  [("Successful requests:", digit_comma);
   ("Benchmark duration (s):", digit_dot);
   ("Request throughput (req/s):", digit_dot);
   ("Input token throughput (tok/s):", digit_comma_dot);
   ("Output token throughput (tok/s):", digit_comma_dot);
   ("Total token throughput (tok/s):", digit_comma_dot);
   ("Mean E2E Latency (ms):", digit_comma_dot);
   ("Mean TTFT (ms):", digit_comma_dot);
   ("Mean ITL (ms):", digit_comma_dot)]%string.

(** The value of the field is written with commas only. *)
Definition no_digits (run : str) (f : string * (ascii -> bool)) : Prop :=
  exists g, first_field (L (fst f)) (snd f) run g /\ remove_commas g = [].

(** The value of the field is not a number: no digit, or two dots. *)
Definition not_a_number (run : str) (f : string * (ascii -> bool)) : Prop :=
  exists g, first_field (L (fst f)) (snd f) run g
            /\ is_float_literal (remove_commas g) = false.

(** The segments on which a conversion fails. *)
Definition malformed (run : str) : Prop :=
  header_found run
  /\ (Exists (no_digits run) token_fields
      \/ (marker_found run /\ Exists (not_a_number run) metric_fields)).

(** No stretch of digits and commas in the segment holds more digits
    than the interpreter converts to an integer. *)
Definition short_numbers (run : str) : Prop :=
  forall pre g post,
    run = pre ++ g ++ post -> forallb digit_comma g = true ->
    within_limit (remove_commas g) = true.

Definition value_chars_ok (f : string * (ascii -> bool)) : Prop :=
  forall c, snd f c = true -> is_space c = false.

(** The value that [re.search] captures for a field, with the commas
    removed, passed to a test. *)
Definition captured (test : str -> bool) (run : str)
           (f : string * (ascii -> bool)) : bool :=
  match search (field_re (fst f) (snd f)) run with
  | Some m => test (remove_commas (group m 1))
  | None => false
  end.

(** A test for [malformed]. *)
Definition malformedb (run : str) : bool :=
  match search header_re run with
  | None => false
  | Some _ =>
      existsb (captured (fun v => match v with [] => true | _ => false end) run)
              token_fields
      || (Re.contains result_marker run
          && existsb (captured (fun v => negb (is_float_literal v)) run)
                     metric_fields)
  end.

Definition is_value_error (e : exn) : Prop := exists msg, e = ValueError msg.

(** *** Records and frames *)

(** The keys of a record, which become the labels of the frame. *)
Definition record_keys : list str :=
  [L "Model"; L "xP_yD"; L "ISL"; L "OSL"; L "Concurrency";
   L "Prompts_Group"; L "Total_Prompts";
   L "Total_Input_Tokens"; L "Total_Output_Tokens";
   L "Request_Throughput_req_s"; L "Input_Token_Throughput_tok_s";
   L "Output_Token_Throughput_tok_s"; L "Total_Token_Throughput_tok_s";
   L "Mean_E2E_Latency_ms"; L "Mean_TTFT_ms"; L "Mean_ITL_ms"].

(** The labels that compact mode asks for and no record has. *)
Definition missing_labels : list str :=
  [L "xP/yD"; L "Request Throughput (req/s)";
   L "Total Token Throughput (tok/s)";
   L "Mean E2E Latency (ms)"; L "Mean TTFT (ms)"; L "Mean ITL (ms)"].

(** *** Runs of the program *)

(** The flags are accepted: not [--no-screen] without [--csv]. *)
Definition accepted (a : args) : Prop :=
  no_screen a && negb (truthy (csv a)) = false.

Definition is_file_not_found (e : exn) : bool :=
  match e with FileNotFoundError _ => true | _ => false end.

(** The three failures of a run before anything is shown. *)
Inductive failure : Type :=
| Missing
| Failed (e : exn)
| Empty.

Definition same_failure (f f' : failure) : bool :=
  match f, f' with
  | Missing, Missing | Failed _, Failed _ | Empty, Empty => true
  | _, _ => false
  end.

(** What is written on the error stream for each. *)
Definition report (a : args) (f : failure) : str :=
  match f with
  | Missing => L "Error: File '" ++ logfile a ++ L "' not found."
  | Failed e => L "Error parsing log file: " ++ exn_message e
  | Empty => L "No benchmark results found in the log file."
  end.

Section WithFloat.
Context {FM : Float}.

(** The number that the text [g] of a value denotes. *)
Definition value_of (k : kind) (g : str) : cell :=
  match k with
  | Count => CInt (int_of_digits (remove_commas g))
  | Metric => CFloat (float_of_literal (remove_commas g))
  end.

(** The field of the record [d] holds what the segment [run] says: no
    value when the field is nowhere, and otherwise the number that the
    first value denotes once its commas are removed. *)
Definition field_read (run : str) (d : dict)
           (f : string * string * (ascii -> bool) * kind) : Prop :=
  let '(key, label, cls, k) := f in
  (no_field (L label) cls run /\ dict_get d (L key) = CNone)
  \/ (exists g, first_field (L label) cls run g
                /\ is_number k (remove_commas g) = true
                /\ dict_get d (L key) = value_of k g).

(** The records of a list of segments: one for each segment with a
    header and a result block, in the order of the segments. *)
Inductive records_of : list str -> list dict -> Prop :=
| records_nil : records_of [] []
| records_emit run runs d ds :
    header_found run -> marker_found run ->
    parse_run run = Ok (Some d) -> records_of runs ds ->
    records_of (run :: runs) (d :: ds)
| records_skip run runs ds :
    ~ (header_found run /\ marker_found run) ->
    records_of runs ds -> records_of (run :: runs) ds.

Definition is_record (d : dict) : Prop := map fst d = record_keys.

(** What is printed when the screen is on. *)
Definition screen (results : list dict) (df : dataframe) : list event :=
  [Stdout (Text (L "Benchmark Results Summary:"));
   Stdout (Text (repeat "="%char 120));
   Stdout (Table df);
   Stdout (Text (nl ++ L "Total runs parsed: "
                    ++ str_of_int (Z.of_nat (length results))))].

(** How a run fails before anything is shown: the log does not exist,
    reading or parsing it raises something else, or it has no record. *)
Inductive fails (E : env) (a : args) : failure -> Prop :=
| fails_missing msg :
    read_file E (logfile a) = Raise (FileNotFoundError msg) ->
    fails E a Missing
| fails_read e :
    read_file E (logfile a) = Raise e -> is_file_not_found e = false ->
    fails E a (Failed e)
| fails_parse content e :
    read_file E (logfile a) = Ok content ->
    parse_content content = Raise e ->
    fails E a (Failed e)
| fails_empty content :
    read_file E (logfile a) = Ok content ->
    parse_content content = Ok [] ->
    fails E a Empty.

(** The CSV file cannot be written, in a run that gets that far. *)
Definition csv_write_fails (E : env) (a : args) : Prop :=
  exists content results c path e,
    compact a = false
    /\ read_file E (logfile a) = Ok content
    /\ parse_content content = Ok results /\ results <> []
    /\ csv a = Some (c :: path)
    /\ write_file E (c :: path) = Raise e.

Definition runtime_failure (E : env) (a : args) : Prop :=
  (exists f, fails E a f) \/ csv_write_fails E a.

End WithFloat.
End Spec.

(* ================================================================= *)
(** ** Further vocabulary: logs, records, frames and runs *)

Module Laws.
Import Re Py BenchmarkParser Spec.

(** The marker that starts a run. *)
Definition run_marker : str := L "[RUNNING]".

(** No marker begins inside [seg], also when a marker follows it. *)
Definition clear_of_marker (seg : str) : Prop :=
  contains run_marker (seg ++ L "[RUNNING") = false.

(** The log made of [pre] and then the segments, each after a marker. *)
Definition log_of (pre : str) (segs : list str) : str :=
  pre ++ concat (map (fun seg => run_marker ++ seg) segs).

Section WithFloat.
Context {FM : Float}.

(** The fields of a record that come from the header line. *)
Definition header_values (d : dict) : Prop :=
  exists model isl osl con xp yd,
    dict_get d (L "Model") = CStr model
    /\ model <> [] /\ forallb non_space model = true
    /\ dict_get d (L "ISL") = CInt isl /\ 0 <= isl
    /\ dict_get d (L "OSL") = CInt osl /\ 0 <= osl
    /\ dict_get d (L "Concurrency") = CInt con /\ 0 <= con
    /\ dict_get d (L "xP_yD")
       = CStr (str_of_int xp ++ L "p" ++ str_of_int yd ++ L "d")
    /\ 0 <= xp /\ 0 <= yd
    /\ forallb is_digit (str_of_int xp) = true
    /\ forallb is_digit (str_of_int yd) = true.

(** A count of the record is absent or not negative. *)
Definition count_ok (d : dict) (key : string) : Prop :=
  dict_get d (L key) = CNone
  \/ exists n, dict_get d (L key) = CInt n /\ 0 <= n.

Definition count_keys : list string :=
  ["Prompts_Group"; "Total_Prompts"; "Total_Input_Tokens";
   "Total_Output_Tokens"]%string.

(** The run gets to its end: the flags are accepted, [--compact] is not
    given, the log is read and has a record, and the CSV file, if one
    is asked for, can be written. *)
Definition completes (E : env) (a : args) : Prop :=
  accepted a /\ compact a = false
  /\ (exists content results,
        read_file E (logfile a) = Ok content
        /\ parse_content content = Ok results /\ results <> [])
  /\ (forall c path, csv a = Some (c :: path) ->
        exists u, write_file E (c :: path) = Ok u).

(** The ways a run of [main] can go, with what it does and how it ends. *)
Inductive run_of (E : env) (a : args) : outcome unit -> Prop :=
| run_rejected :
    no_screen a = true -> truthy (csv a) = false ->
    run_of E a ([Usage (L "--no-screen requires --csv option")], inl (SysExit 2))
| run_failed f :
    accepted a -> fails E a f ->
    run_of E a ([Open (logfile a); Stderr (report a f)], inl (SysExit 1))
| run_compact content results :
    accepted a -> compact a = true ->
    read_file E (logfile a) = Ok content ->
    parse_content content = Ok results -> results <> [] ->
    run_of E a ([Open (logfile a)], inl (Uncaught (KeyError missing_labels)))
| run_shown content results :
    accepted a -> compact a = false ->
    read_file E (logfile a) = Ok content ->
    parse_content content = Ok results -> results <> [] ->
    truthy (csv a) = false ->
    run_of E a (Open (logfile a)
                :: (if no_screen a then []
                    else screen results (DataFrame results)),
              inr tt)
| run_saved content results c path u :
    accepted a -> compact a = false ->
    read_file E (logfile a) = Ok content ->
    parse_content content = Ok results -> results <> [] ->
    csv a = Some (c :: path) -> write_file E (c :: path) = Ok u ->
    run_of E a (Open (logfile a)
                :: (if no_screen a then []
                    else screen results (DataFrame results))
                ++ ToCsv (c :: path) (DataFrame results)
                :: (if no_screen a then []
                    else [Stdout (Text (nl ++ L "Results saved to: " ++ c :: path))]),
              inr tt)
| run_not_saved content results c path e :
    accepted a -> compact a = false ->
    read_file E (logfile a) = Ok content ->
    parse_content content = Ok results -> results <> [] ->
    csv a = Some (c :: path) -> write_file E (c :: path) = Raise e ->
    run_of E a (Open (logfile a)
                :: (if no_screen a then []
                    else screen results (DataFrame results))
                ++ [Stderr (L "Error saving CSV file: " ++ exn_message e)],
              inl (SysExit 1)).

(** What formatting does to a cell: it leaves it, or it puts a text in
    the place of a value that is there. *)
Definition kept_or_text (x y : cell) : Prop :=
  y = x \/ (notna x = true /\ exists s, y = CStr s).

(** The frames have the same labels in the same order and as many rows,
    and a cell of the second is the cell of the first or a text for it. *)
Definition same_shape (v v' : dataframe) : Prop :=
  Forall2 (fun col col' =>
             fst col' = fst col /\ Forall2 kept_or_text (snd col) (snd col'))
          v v'.

(** A cell that holds a text, and a cell that holds a text or nothing. *)
Definition is_text (x : cell) : Prop := exists s, x = CStr s.
Definition none_or_text (x : cell) : Prop := x = CNone \/ is_text x.

(** Every integer of the records fits in 64 bits. *)
Definition int64 (n : Z) : Prop := - 2 ^ 63 <= n < 2 ^ 63.

Definition ints_fit (results : list dict) : Prop :=
  Forall (fun d => Forall (fun kv => forall n, snd kv = CInt n -> int64 n) d)
         results.

(** Some record has no value for the key. *)
Definition has_gap (results : list dict) (k : str) : bool :=
  existsb (fun d => negb (notna (dict_get d k))) results.

(** The cell that the frame has for a value of the records: the value
    itself, or the float of it when it is an integer in a column with a
    gap. *)
Definition typed (results : list dict) (k : str) (x : cell) : cell :=
  if has_gap results k then upcast x else x.

(** The keys whose values are integers, and what the values of a
    record are for each key: an integer or nothing for those, a text, a
    float or nothing for the others. *)
Definition int_keys : list str :=
  [L "ISL"; L "OSL"; L "Concurrency"; L "Prompts_Group"; L "Total_Prompts";
   L "Total_Input_Tokens"; L "Total_Output_Tokens"].

Definition well_typed (d : dict) : Prop :=
  forall k, In k record_keys ->
    if existsb (str_eqb k) int_keys
    then dict_get d k = CNone \/ exists n, dict_get d k = CInt n
    else forall n, dict_get d k <> CInt n.

(** The frame has one value in each column for each of [n] rows. *)
Definition has_rows (n : nat) (df : dataframe) : Prop :=
  Forall (fun col => length (snd col) = n) df.

End WithFloat.

(** A frame with the labels that the formatter names, one row with
    values and one without. *)
Definition display_frame : @dataframe Decimal.model :=
  [(L "Model", [CStr (L "m"); CStr (L "m")]);
   (L "Total Input Tokens", [CInt 1234567; CNone]);
   (L "Mean TTFT (ms)", [CFloat (float_of_literal (L "45.678")); CNone])].

Definition formatted_frame : @dataframe Decimal.model :=
  [(L "Model", [CStr (L "m"); CStr (L "m")]);
   (L "Total Input Tokens", [CStr (L "1,234,567"); CNone]);
   (L "Mean TTFT (ms)", [CStr (L "45.68"); CNone])].

(** The port is open at every attempt. *)
Definition always_open (j : nat) : Z := 0.

(** The sample run with [--no-screen] and [--csv out.csv]. *)
Definition quiet_csv : args :=
  {| logfile := Sample.path; csv := Some (L "out.csv"); compact := false;
     no_screen := true |}.

End Laws.

(* ================================================================= *)
(** ** The matcher and the language of a pattern *)

Module ReFacts.
Import Re Spec.
Local Open Scope nat_scope.

Lemma strip_prefix_app p s : strip_prefix p (p ++ s) = Some s.
Proof.
  induction p as [|a p IH]; cbn; [reflexivity|].
  rewrite Ascii.eqb_refl. exact IH.
Qed.

Lemma strip_prefix_some p : forall s r, strip_prefix p s = Some r -> s = p ++ r.
Proof.
  induction p as [|a p IH]; intros s r H; cbn in *.
  - congruence.
  - destruct s as [|b s]; [discriminate|].
    destruct (Ascii.eqb a b) eqn:E; [|discriminate].
    apply Ascii.eqb_eq in E. subst b. f_equal. auto.
Qed.

Section PlusBt.
Context {R : Type} (cls : ascii -> bool) (k : str -> str -> option R).

(** When [cls+] fails, the continuation fails after every nonempty run
    of [cls] at the start of the text. *)
Lemma plus_bt_none : forall s taken,
  plus_bt cls s taken k = None ->
  forall g rest, s = g ++ rest -> g <> [] -> forallb cls g = true ->
    k (rev taken ++ g) rest = None.
Proof.
  induction s as [|c s IH]; intros taken H g rest Heq Hg Hall.
  - destruct g; [contradiction | discriminate].
  - destruct g as [|c' g]; [contradiction|].
    cbn in Heq. injection Heq as <- Heq.
    cbn in Hall. apply andb_true_iff in Hall as [Hc Hall].
    cbn in H. rewrite Hc in H.
    destruct (plus_bt cls s (c :: taken) k) eqn:Hrec; [discriminate|].
    destruct g as [|c'' g].
    + cbn in Heq. subst s. exact H.
    + specialize (IH _ Hrec (c'' :: g) rest Heq ltac:(discriminate) Hall).
      cbn in IH. rewrite <- app_assoc in IH. exact IH.
Qed.

(** A success of [cls+] comes from a nonempty run [g] of [cls] after
    which the continuation succeeds, and the continuation fails after
    every longer run: the longest run that works is the one taken. *)
Lemma plus_bt_some : forall s taken r,
  plus_bt cls s taken k = Some r ->
  exists g rest,
    s = g ++ rest /\ g <> [] /\ forallb cls g = true
    /\ k (rev taken ++ g) rest = Some r
    /\ forall g' rest', s = g' ++ rest' -> forallb cls g' = true ->
         length g < length g' -> k (rev taken ++ g') rest' = None.
Proof.
  induction s as [|c s IH]; intros taken r H; cbn in H; [discriminate|].
  destruct (cls c) eqn:Hc; [|discriminate].
  destruct (plus_bt cls s (c :: taken) k) as [r'|] eqn:Hrec.
  - injection H as ->.
    destruct (IH _ _ Hrec) as (g & rest & -> & Hg & Hall & Hk & Hmax).
    exists (c :: g), rest. cbn in Hk. rewrite <- app_assoc in Hk. cbn in Hk.
    repeat split; [discriminate | cbn; rewrite Hc; exact Hall | exact Hk |].
    intros g' rest' Heq Hall' Hlen.
    destruct g' as [|c' g']; [cbn in Hlen; lia|].
    cbn in Heq. injection Heq as <- Heq. cbn in Hall'.
    apply andb_true_iff in Hall' as [_ Hall'].
    specialize (Hmax g' rest' Heq Hall' ltac:(cbn in Hlen; lia)).
    cbn in Hmax. rewrite <- app_assoc in Hmax. exact Hmax.
  - exists [c], s. cbn. rewrite Hc.
    repeat split; [discriminate | exact H |].
    intros g' rest' Heq Hall' Hlen.
    destruct g' as [|c' g']; [cbn in Hlen; lia|].
    cbn in Heq. injection Heq as <- Heq. cbn in Hall'.
    apply andb_true_iff in Hall' as [_ Hall'].
    assert (Hne : g' <> []) by (destruct g'; [cbn in Hlen; lia | discriminate]).
    pose proof (plus_bt_none _ _ Hrec g' rest' Heq Hne Hall') as Hn.
    cbn in Hn. rewrite <- app_assoc in Hn. exact Hn.
Qed.

(** Conversely, [cls+] succeeds as soon as the continuation succeeds
    after some nonempty run. *)
Lemma plus_bt_complete s taken g rest :
  s = g ++ rest -> g <> [] -> forallb cls g = true ->
  k (rev taken ++ g) rest <> None ->
  plus_bt cls s taken k <> None.
Proof.
  intros Heq Hg Hall Hk Hnone.
  apply Hk. eapply plus_bt_none; eauto.
Qed.
End PlusBt.

(** The matcher is sound for the language of the pattern... *)
Lemma match_here_sound p : forall s caps gs rest,
  match_here p s caps = Some (gs, rest) ->
  exists w gs', s = w ++ rest /\ gs = rev caps ++ gs' /\ matches p w gs'.
Proof.
  induction p as [|[l|cls|cls] p IH]; intros s caps gs rest H; cbn in H.
  - injection H as <- <-. exists [], []. rewrite app_nil_r.
    repeat split. constructor.
  - destruct (strip_prefix l s) as [s'|] eqn:Hl; [|discriminate].
    apply strip_prefix_some in Hl. subst s.
    destruct (IH _ _ _ _ H) as (w & gs' & -> & -> & Hm).
    exists (l ++ w), gs'. rewrite app_assoc. repeat split. now constructor.
  - apply plus_bt_some in H as (g & r & -> & Hg & Hall & Hk & _).
    destruct (IH _ _ _ _ Hk) as (w & gs' & -> & -> & Hm).
    exists (g ++ w), gs'. rewrite app_assoc. repeat split. now constructor.
  - apply plus_bt_some in H as (g & r & -> & Hg & Hall & Hk & _).
    destruct (IH _ _ _ _ Hk) as (w & gs' & -> & -> & Hm).
    exists (g ++ w), (g :: gs'). cbn.
    split; [apply app_assoc|].
    split; [rewrite <- app_assoc; reflexivity | now constructor].
Qed.

(** ... and complete: it finds a match wherever the language has one. *)
Lemma match_here_complete p w gs :
  matches p w gs -> forall rest caps, match_here p (w ++ rest) caps <> None.
Proof.
  induction 1 as [|l p w gs Hm IH|cls p g w gs Hg Hall Hm IH|cls p g w gs Hg Hall Hm IH];
    intros rest caps; cbn.
  - discriminate.
  - rewrite <- app_assoc, strip_prefix_app. apply IH.
  - rewrite <- app_assoc.
    eapply plus_bt_complete; eauto; cbn; apply IH.
  - rewrite <- app_assoc.
    eapply plus_bt_complete; eauto; cbn; apply IH.
Qed.

(** [re.search] succeeds exactly when some piece of the text is in the
    language of the pattern, and its groups are those of such a piece. *)
Lemma search_sound p : forall s gs,
  search p s = Some gs ->
  exists pre w post, s = pre ++ w ++ post /\ matches p w gs.
Proof.
  induction s as [|c s IH]; intros gs H; cbn in H.
  - destruct (match_here p [] []) as [[gs' r]|] eqn:Hm; [|discriminate].
    injection H as ->.
    apply match_here_sound in Hm as (w & gs' & Heq & -> & Hm).
    exists [], w, r. cbn. auto.
  - destruct (match_here p (c :: s) []) as [[gs' r]|] eqn:Hm.
    + injection H as ->.
      apply match_here_sound in Hm as (w & gs' & Heq & -> & Hm).
      exists [], w, r. cbn. auto.
    + destruct (IH _ H) as (pre & w & post & -> & Hm').
      exists (c :: pre), w, post. auto.
Qed.

Lemma search_complete p pre w post gs :
  matches p w gs -> search p (pre ++ w ++ post) <> None.
Proof.
  intros Hm. induction pre as [|c pre IH]; cbn.
  - pose proof (match_here_complete _ _ _ Hm post []) as Hc.
    destruct (w ++ post); cbn;
      destruct (match_here p _ []) as [[? ?]|]; congruence.
  - destruct (match_here p (c :: pre ++ w ++ post) []) as [[? ?]|];
      [discriminate | exact IH].
Qed.


(** *** Patterns of the shape [label\s+(cls+)] *)

Lemma field_at_matches label cls s g :
  field_at label cls s g ->
  exists w post, s = w ++ post /\ matches (labelled label cls) w [g].
Proof.
  intros (ws & post & -> & Hws & Hsp & Hg & Hcls & _).
  exists (label ++ ws ++ g ++ []), post. split.
  - rewrite app_nil_r, <- !app_assoc. reflexivity.
  - repeat constructor; assumption.
Qed.

Lemma match_here_labelled label cls s gs rest :
  match_here (labelled label cls) s [] = Some (gs, rest) ->
  exists g, gs = [g] /\ field_at label cls s g.
Proof.
  unfold labelled. cbn. intros H.
  destruct (strip_prefix label s) as [s1|] eqn:Hl; [|discriminate].
  apply strip_prefix_some in Hl. subst s.
  apply plus_bt_some in H as (ws & s2 & -> & Hws & Hsp & H & _).
  apply plus_bt_some in H as (g & post & -> & Hg & Hcls & H & Hmax).
  cbn in H. injection H as <- <-. cbn in Hmax.
  exists g. split; [reflexivity|].
  exists ws, post. repeat split; try assumption.
  destruct post as [|c post]; cbn; [exact I|].
  destruct (cls c) eqn:Hc; [|reflexivity].
  specialize (Hmax (g ++ [c]) post).
  rewrite <- app_assoc in Hmax. specialize (Hmax eq_refl).
  rewrite forallb_app in Hmax. cbn in Hmax. rewrite Hcls, Hc in Hmax.
  specialize (Hmax eq_refl). rewrite length_app in Hmax. cbn in Hmax.
  specialize (Hmax ltac:(lia)). discriminate.
Qed.

Lemma match_here_labelled_none label cls s g :
  match_here (labelled label cls) s [] = None -> ~ field_at label cls s g.
Proof.
  intros H Hf. apply field_at_matches in Hf as (w & post & -> & Hm).
  exact (match_here_complete _ _ _ Hm post [] H).
Qed.

(** [re.search] on such a pattern returns the value of the first
    occurrence of the field. *)
Lemma search_labelled_some label cls : forall s gs,
  search (labelled label cls) s = Some gs ->
  exists g, gs = [g] /\ first_field label cls s g.
Proof.
  induction s as [|c s IH]; intros gs H; cbn [search] in H.
  - destruct (match_here _ [] []) as [[gs' r]|] eqn:Hm; [|discriminate].
    injection H as ->.
    apply match_here_labelled in Hm as (g & -> & Hf).
    exists g. split; [reflexivity|]. exists [], []. repeat split; auto.
    intros pre1 pre2 g' Heq Hne. destruct pre1; destruct pre2; try discriminate.
    contradiction.
  - destruct (match_here _ (c :: s) []) as [[gs' r]|] eqn:Hm.
    + injection H as ->.
      apply match_here_labelled in Hm as (g & -> & Hf).
      exists g. split; [reflexivity|]. exists [], (c :: s). repeat split; auto.
      intros pre1 pre2 g' Heq Hne. destruct pre1; destruct pre2; try discriminate.
      contradiction.
    + destruct (IH _ H) as (g & -> & pre & s' & -> & Hf & Hfirst).
      exists g. split; [reflexivity|]. exists (c :: pre), s'.
      repeat split; auto.
      intros pre1 pre2 g' Heq Hne Hf'.
      destruct pre1 as [|c1 pre1].
      * cbn in Heq. subst pre2.
        exact (match_here_labelled_none _ _ _ _ Hm Hf').
      * cbn in Heq. injection Heq as <- Heq.
        exact (Hfirst pre1 pre2 g' Heq Hne Hf').
Qed.

Lemma search_labelled_none label cls : forall s,
  search (labelled label cls) s = None -> no_field label cls s.
Proof.
  intros s H pre s' g -> Hf.
  apply field_at_matches in Hf as (w & post & -> & Hm).
  exact (search_complete _ pre w post _ Hm H).
Qed.


(** The first occurrence reads one value only. *)

Lemma run_unique (cls : ascii -> bool) : forall a a' b b',
  forallb cls a = true -> forallb cls a' = true ->
  stops cls b -> stops cls b' ->
  a ++ b = a' ++ b' -> a = a' /\ b = b'.
Proof.
  induction a as [|c a IH]; intros a' b b' Ha Ha' Hb Hb' Heq.
  - destruct a' as [|c' a']; [auto|].
    cbn in Heq. subst b. cbn in Hb, Ha'.
    apply andb_true_iff in Ha' as [Hc _]. congruence.
  - destruct a' as [|c' a'].
    + cbn in Heq. subst b'. cbn in Hb', Ha.
      apply andb_true_iff in Ha as [Hc _]. congruence.
    + cbn in Heq. injection Heq as <- Heq.
      cbn in Ha, Ha'. apply andb_true_iff in Ha as [_ Ha].
      apply andb_true_iff in Ha' as [_ Ha'].
      destruct (IH a' b b' Ha Ha' Hb Hb' Heq) as [-> ->]. auto.
Qed.

Lemma field_at_unique label cls s g g' :
  (forall c, cls c = true -> is_space c = false) ->
  field_at label cls s g -> field_at label cls s g' -> g = g'.
Proof.
  intros Hdis (ws & post & -> & Hws & Hsp & Hg & Hcls & Hst)
         (ws' & post' & Heq & Hws' & Hsp' & Hg' & Hcls' & Hst').
  apply app_inv_head in Heq.
  assert (Hhead : forall x y, x <> [] -> forallb cls x = true ->
                              stops is_space (x ++ y)).
  { intros [|c x] y Hx Hall; [contradiction|]. cbn in *.
    apply andb_true_iff in Hall as [Hc _]. auto. }
  destruct (run_unique is_space ws ws' (g ++ post) (g' ++ post'))
    as [_ Heq']; auto.
  destruct (run_unique cls g g' post post'); auto.
Qed.

Lemma first_field_unique label cls s g g' :
  (forall c, cls c = true -> is_space c = false) ->
  first_field label cls s g -> first_field label cls s g' -> g = g'.
Proof.
  intros Hdis (pre & s1 & -> & Hf & Hfirst) (pre' & s2 & Heq & Hf' & Hfirst').
  apply app_eq_app in Heq as (l & [[-> ->] | [-> ->]]).
  - destruct l as [|c l].
    + cbn in Hf'. eapply field_at_unique; eauto.
    + exfalso. eapply (Hfirst pre' (c :: l)); [reflexivity | discriminate | exact Hf'].
  - destruct l as [|c l].
    + cbn in Hf. eapply field_at_unique; eauto.
    + exfalso. eapply (Hfirst' pre (c :: l)); [reflexivity | discriminate | exact Hf].
Qed.

Lemma no_field_first_field label cls s g :
  no_field label cls s -> ~ first_field label cls s g.
Proof.
  intros Hn (pre & s' & -> & Hf & _). exact (Hn pre s' g eq_refl Hf).
Qed.

(** The characters of a value are never white space. *)
Lemma digit_comma_dot_not_space c :
  digit_comma_dot c = true -> is_space c = false.
Proof.
  destruct c as [[] [] [] [] [] [] [] []]; vm_compute; congruence.
Qed.

End ReFacts.

(* ================================================================= *)
(** ** The parser *)

Module PyFacts.
Import Re Py.

Lemma int_digits g :
  g <> [] -> forallb is_digit g = true -> within_limit g = true ->
  int g = Ok (int_of_digits g).
Proof.
  intros Hg Hd Hl. unfold int. destruct g; [contradiction|]. now rewrite Hd, Hl.
Qed.

Lemma int_ok s n :
  int s = Ok n -> s <> [] /\ forallb is_digit s = true /\ n = int_of_digits s.
Proof.
  unfold int. destruct s as [|c s]; [discriminate|].
  destruct (forallb is_digit (c :: s)); [|discriminate].
  destruct (within_limit (c :: s)); [|discriminate].
  intros [= <-]. repeat split. discriminate.
Qed.

Lemma int_ok_limit s n : int s = Ok n -> within_limit s = true.
Proof.
  unfold int. destruct s as [|c s]; [discriminate|].
  destruct (forallb is_digit (c :: s)); [|discriminate].
  now destruct (within_limit (c :: s)).
Qed.

(** A text within the limit has its pieces within the limit, with or
    without their commas. *)
Lemma within_limit_piece pre g post :
  within_limit (pre ++ g ++ post) = true ->
  within_limit (remove_commas g) = true.
Proof.
  unfold within_limit. intros H. apply Z.leb_le in H. apply Z.leb_le.
  rewrite !length_app in H.
  pose proof (filter_length_le (fun c => negb (is_comma c)) g) as Hf.
  unfold remove_commas. lia.
Qed.

Lemma comma_not_digit c : is_comma c = true -> is_digit c = false.
Proof.
  unfold is_comma, is_digit. intros H. apply N.eqb_eq in H. rewrite H. reflexivity.
Qed.

Lemma remove_commas_digits g :
  forallb digit_comma g = true -> forallb is_digit (remove_commas g) = true.
Proof.
  induction g as [|c g IH]; cbn; [reflexivity|].
  intros H. apply andb_true_iff in H as [Hc Hg].
  unfold digit_comma in Hc. destruct (is_comma c) eqn:E; cbn.
  - auto.
  - rewrite orb_false_r in Hc. rewrite Hc. cbn. auto.
Qed.

Lemma remove_commas_id g :
  forallb is_digit g = true -> remove_commas g = g.
Proof.
  induction g as [|c g IH]; cbn; [reflexivity|].
  intros H. apply andb_true_iff in H as [Hc Hg].
  destruct (is_comma c) eqn:E.
  - apply comma_not_digit in E. congruence.
  - cbn. f_equal. auto.
Qed.

End PyFacts.

Module ParserFacts.
Import Re Py BenchmarkParser Spec ReFacts PyFacts.
Local Open Scope py_scope.

Lemma bind_ok {A B} (m : result A) (k : A -> result B) b :
  bind m k = Ok b -> exists a, m = Ok a /\ k a = Ok b.
Proof. destruct m; cbn; [eauto | discriminate]. Qed.

Lemma header_groups w gs :
  matches header_re w gs ->
  exists g1 g2 g3 g4 g5 g6,
    gs = [g1; g2; g3; g4; g5; g6]
    /\ (g1 <> [] /\ forallb is_digit g1 = true)
    /\ (g2 <> [] /\ forallb is_digit g2 = true)
    /\ (g3 <> [] /\ forallb is_digit g3 = true)
    /\ (g4 <> [] /\ forallb non_space g4 = true)
    /\ (g5 <> [] /\ forallb is_digit g5 = true)
    /\ (g6 <> [] /\ forallb is_digit g6 = true).
Proof.
  unfold header_re. intros H.
  repeat match goal with
         | H : matches (_ :: _) _ _ |- _ => inversion H; subst; clear H
         | H : matches [] _ _ |- _ => inversion H; subst; clear H
         end.
  do 6 eexists. repeat split; eassumption.
Qed.


Lemma contains_true sub : forall s,
  contains sub s = true -> exists pre post, s = pre ++ sub ++ post.
Proof.
  induction s as [|c s IH]; cbn; intros Hc.
  - destruct (strip_prefix sub []) as [r|] eqn:E; [|discriminate].
    apply strip_prefix_some in E. exists [], r. exact E.
  - destruct (strip_prefix sub (c :: s)) as [r|] eqn:E.
    + apply strip_prefix_some in E. exists [], r. exact E.
    + destruct (IH Hc) as (pre & post & ->). exists (c :: pre), post. reflexivity.
Qed.

Lemma contains_app sub pre post : contains sub (pre ++ sub ++ post) = true.
Proof.
  induction pre as [|c pre IH]; cbn.
  - destruct (sub ++ post) eqn:E; cbn; rewrite <- ?E, strip_prefix_app; reflexivity.
  - destruct (strip_prefix sub (c :: pre ++ sub ++ post)); [reflexivity | exact IH].
Qed.

Section WithFloat.
Context {FM : Float}.

(** A group of a match is a piece of the text matched. *)
Lemma matches_group_piece p w gs :
  matches p w gs -> forall g, In g gs -> exists a b, w = a ++ g ++ b.
Proof.
  induction 1 as [|l p w gs _ IH|cls p g0 w gs _ _ _ IH|cls p g0 w gs _ _ _ IH];
    intros g Hin.
  - contradiction.
  - destruct (IH g Hin) as (a & b & ->). exists (l ++ a), b.
    now rewrite <- app_assoc.
  - destruct (IH g Hin) as (a & b & ->). exists (g0 ++ a), b.
    now rewrite <- app_assoc.
  - destruct Hin as [<- | Hin]; [now exists [], w|].
    destruct (IH g Hin) as (a & b & ->). exists (g0 ++ a), b.
    now rewrite <- app_assoc.
Qed.

(** A run of digits in a segment with short numbers is converted. *)
Lemma int_short run pre g post :
  short_numbers run -> run = pre ++ g ++ post ->
  g <> [] -> forallb is_digit g = true ->
  int g = Ok (int_of_digits g).
Proof.
  intros Hshort Hrun Hg Hd. apply int_digits; auto.
  rewrite <- (remove_commas_id g Hd). apply (Hshort pre g post Hrun).
  clear -Hd. induction g as [|c g IH]; [reflexivity|].
  cbn [forallb] in Hd |- *. apply andb_true_iff in Hd as [Hc Hg].
  apply andb_true_iff. split; [unfold digit_comma; now rewrite Hc | auto].
Qed.

Lemma header_search_some run m :
  search header_re run = Some m ->
  header_found run /\
  exists g1 g2 g3 g4 g5 g6,
    m = [g1; g2; g3; g4; g5; g6]
    /\ (short_numbers run ->
        int g1 = Ok (int_of_digits g1) /\ int g2 = Ok (int_of_digits g2)
        /\ int g3 = Ok (int_of_digits g3) /\ int g5 = Ok (int_of_digits g5)
        /\ int g6 = Ok (int_of_digits g6)).
Proof.
  intros Hs. apply search_sound in Hs as (pre & w & post & -> & Hm).
  split; [now exists pre, w, post, m|].
  pose proof (matches_group_piece _ _ _ Hm) as Hpiece.
  apply header_groups in Hm
    as (g1 & g2 & g3 & g4 & g5 & g6 & -> & [] & [] & [] & [] & [] & []).
  exists g1, g2, g3, g4, g5, g6. split; [reflexivity|]. intros Hshort.
  assert (Hint : forall g, In g [g1; g2; g3; g4; g5; g6] -> g <> [] ->
                   forallb is_digit g = true -> int g = Ok (int_of_digits g)).
  { intros g Hin Hg Hd. destruct (Hpiece g Hin) as (a & b & ->).
    apply (int_short _ (pre ++ a) g (b ++ post) Hshort); auto.
    now rewrite <- !app_assoc. }
  repeat split; apply Hint; auto; cbn [In]; auto 10.
Qed.

Lemma header_search_none run :
  search header_re run = None -> ~ header_found run.
Proof.
  intros Hs (pre & w & post & gs & -> & Hm).
  exact (search_complete _ pre w post gs Hm Hs).
Qed.

(** The three ways the parser reads an optional field. *)

Lemma search_int_reads run label o :
  search_int run (field_re label is_digit) = Ok o ->
  (no_field (L label) is_digit run /\ o = None)
  \/ (exists g, first_field (L label) is_digit run g
                /\ is_number Count (remove_commas g) = true
                /\ o = Some (int_of_digits (remove_commas g))).
Proof.
  unfold search_int, field_re. intros Ho.
  destruct (search _ run) as [m|] eqn:Hs.
  - right. apply search_labelled_some in Hs as (g & -> & Hf).
    exists g. split; [exact Hf|].
    apply bind_ok in Ho as (n & Hn & Ho).
    change (group [g] 1) with g in Hn.
    apply int_ok in Hn as (Hg & Hd & ->). injection Ho as <-.
    rewrite remove_commas_id by exact Hd.
    split; [destruct g; [contradiction | exact Hd] | reflexivity].
  - left. split; [now apply search_labelled_none | congruence].
Qed.

(** The place of a field's value in the segment. *)
Lemma first_field_piece label cls run g :
  first_field label cls run g -> exists a b, run = a ++ g ++ b.
Proof.
  intros (pre & s' & -> & (ws & post & -> & _) & _).
  exists (pre ++ label ++ ws), post. now rewrite <- !app_assoc.
Qed.

Lemma search_int_total run label :
  short_numbers run ->
  exists o, search_int run (field_re label is_digit) = Ok o.
Proof.
  intros Hshort. unfold search_int, field_re.
  destruct (search _ run) as [m|] eqn:Hs; [|eauto].
  apply search_labelled_some in Hs as (g & -> & Hf).
  destruct (first_field_piece _ _ _ _ Hf) as (a & b & Hrun).
  destruct Hf as (pre & s' & _ & (ws & post & _ & _ & _ & Hg & Hd & _) & _).
  change (group [g] 1) with g.
  rewrite (int_short run a g b Hshort Hrun Hg Hd). cbn. eauto.
Qed.

Lemma search_int_commas_reads run label o :
  search_int_commas run (field_re label digit_comma) = Ok o ->
  (no_field (L label) digit_comma run /\ o = None)
  \/ (exists g, first_field (L label) digit_comma run g
                /\ is_number Count (remove_commas g) = true
                /\ o = Some (int_of_digits (remove_commas g))).
Proof.
  unfold search_int_commas, field_re. intros Ho.
  destruct (search _ run) as [m|] eqn:Hs.
  - right. apply search_labelled_some in Hs as (g & -> & Hf).
    exists g. split; [exact Hf|].
    apply bind_ok in Ho as (n & Hn & Ho).
    change (group [g] 1) with g in Hn.
    apply int_ok in Hn as (Hne & Hd & ->). injection Ho as <-.
    split; [|reflexivity].
    cbn. destruct (remove_commas g); [contradiction | exact Hd].
  - left. split; [now apply search_labelled_none | congruence].
Qed.

Lemma extract_reads run label cls o :
  extract run (field_re label cls) = Ok o ->
  (no_field (L label) cls run /\ o = None)
  \/ (exists g, first_field (L label) cls run g
                /\ is_number Metric (remove_commas g) = true
                /\ o = Some (float_of_literal (remove_commas g))).
Proof.
  unfold extract, field_re. intros Ho.
  destruct (search _ run) as [m|] eqn:Hs.
  - right. apply search_labelled_some in Hs as (g & -> & Hf).
    exists g. split; [exact Hf|].
    apply bind_ok in Ho as (x & Hx & Ho).
    change (group [g] 1) with g in Hx. unfold float in Hx.
    destruct (is_float_literal (remove_commas g)) eqn:Hlit; [|discriminate].
    injection Hx as <-. injection Ho as <-. split; [exact Hlit | reflexivity].
  - left. split; [now apply search_labelled_none | congruence].
Qed.


(** What [parse_run] went through when it appended a record. *)
Lemma parse_run_some run d :
  parse_run run = Ok (Some d) ->
  exists m ql ol con xp yd pg tp ti to rt it ot tt e2e ttft itl,
    search header_re run = Some m
    /\ Re.contains result_marker run = true
    /\ int (group m 1) = Ok ql /\ int (group m 2) = Ok ol
    /\ int (group m 3) = Ok con
    /\ int (group m 5) = Ok xp /\ int (group m 6) = Ok yd
    /\ search_int run prompts_per_group_re = Ok pg
    /\ search_int run total_prompts_re = Ok tp
    /\ search_int_commas run total_input_tokens_re = Ok ti
    /\ search_int_commas run total_output_tokens_re = Ok to
    /\ extract run req_throughput_re = Ok rt
    /\ extract run input_tok_throughput_re = Ok it
    /\ extract run output_tok_throughput_re = Ok ot
    /\ extract run total_tok_throughput_re = Ok tt
    /\ extract run mean_e2e_re = Ok e2e
    /\ extract run mean_ttft_re = Ok ttft
    /\ extract run mean_itl_re = Ok itl
    /\ d = [(L "Model", CStr (group m 4));
            (L "xP_yD", CStr (str_of_int xp ++ L "p" ++ str_of_int yd ++ L "d"));
            (L "ISL", CInt ql); (L "OSL", CInt ol); (L "Concurrency", CInt con);
            (L "Prompts_Group", of_opt_int pg);
            (L "Total_Prompts", of_opt_int tp);
            (L "Total_Input_Tokens", of_opt_int ti);
            (L "Total_Output_Tokens", of_opt_int to);
            (L "Request_Throughput_req_s", of_opt_float rt);
            (L "Input_Token_Throughput_tok_s", of_opt_float it);
            (L "Output_Token_Throughput_tok_s", of_opt_float ot);
            (L "Total_Token_Throughput_tok_s", of_opt_float tt);
            (L "Mean_E2E_Latency_ms", of_opt_float e2e);
            (L "Mean_TTFT_ms", of_opt_float ttft);
            (L "Mean_ITL_ms", of_opt_float itl)].
Proof.
  unfold parse_run. intros Hp.
  destruct (search header_re run) as [m|] eqn:Hm; [|discriminate].
  apply bind_ok in Hp as (ql & Hql & Hp).
  apply bind_ok in Hp as (ol & Hol & Hp).
  apply bind_ok in Hp as (con & Hcon & Hp).
  apply bind_ok in Hp as (xp & Hxp & Hp).
  apply bind_ok in Hp as (yd & Hyd & Hp).
  apply bind_ok in Hp as (pg & Hpg & Hp).
  apply bind_ok in Hp as (tp & Htp & Hp).
  apply bind_ok in Hp as (ti & Hti & Hp).
  apply bind_ok in Hp as (to & Hto & Hp).
  destruct (Re.contains result_marker run) eqn:Hmark; [|discriminate].
  apply bind_ok in Hp as (sr & Hsr & Hp).
  apply bind_ok in Hp as (du & Hdu & Hp).
  apply bind_ok in Hp as (rt & Hrt & Hp).
  apply bind_ok in Hp as (it & Hit & Hp).
  apply bind_ok in Hp as (ot & Hot & Hp).
  apply bind_ok in Hp as (tt & Htt & Hp).
  apply bind_ok in Hp as (e2e & He2e & Hp).
  apply bind_ok in Hp as (ttft & Httft & Hp).
  apply bind_ok in Hp as (itl & Hitl & Hp).
  injection Hp as <-.
  exists m, ql, ol, con, xp, yd, pg, tp, ti, to, rt, it, ot, tt, e2e, ttft, itl.
  repeat (split; [first [assumption | reflexivity]|]). reflexivity.
Qed.


Lemma parse_run_keys run d : parse_run run = Ok (Some d) -> is_record d.
Proof.
  intros Hp. apply parse_run_some in Hp
    as (m & ql & ol & con & xp & yd & pg & tp & ti & to & rt & it & ot & tt
        & e2e & ttft & itl & _ & _ & _ & _ & _ & _ & _
        & _ & _ & _ & _ & _ & _ & _ & _ & _ & _ & _ & ->).
  reflexivity.
Qed.

(** C5, amended: each of the eleven optional numeric fields of an emitted
    record (the four dataset counts and the seven metrics that are
    stored) is absent exactly when its pattern is nowhere in the
    segment, and otherwise is the number written at the first place
    where the pattern is: the longest run there of the characters of the
    field (digits; digits and commas for the token totals; digits and
    dots for the request throughput; digits, commas and dots for the
    other metrics), which denotes a number once its commas are removed
    and is converted to that number.  An absent field is [None], never
    zero, and each field depends on the segment through its own pattern
    only.  The record has these fields and the five of the header. *)
Theorem optional_fields_hold_first_values run d :
  parse_run run = Ok (Some d) ->
  is_record d /\ Forall (field_read run d) optional_fields.
Proof.
  intros Hp. split; [exact (parse_run_keys _ _ Hp)|].
  apply parse_run_some in Hp
    as (m & ql & ol & con & xp & yd & pg & tp & ti & to & rt & it & ot & tt
        & e2e & ttft & itl & _ & _ & _ & _ & _ & _ & _
        & Hpg & Htp & Hti & Hto & Hrt & Hit & Hot & Htt & He2e & Httft & Hitl & ->).
  apply search_int_reads in Hpg, Htp.
  apply search_int_commas_reads in Hti, Hto.
  apply extract_reads in Hrt, Hit, Hot, Htt, He2e, Httft, Hitl.
  unfold optional_fields.
  repeat (apply Forall_cons || apply Forall_nil); unfold field_read.
  all: match goal with
       | Hx : (no_field (L ?l) _ _ /\ _) \/ _ |- (no_field (L ?l) _ _ /\ _) \/ _ =>
           destruct Hx as [(Hn & ->) | (g & Hf & Hx)];
           [left; split; [exact Hn | reflexivity]
           | right; exists g; split; [exact Hf|];
             destruct Hx as (Hnum & ->); split; [exact Hnum | reflexivity] ]
       end.
Qed.


(** *** Which segments give a record *)

Lemma records_of_length runs ds :
  records_of runs ds -> (length ds <= length runs)%nat.
Proof. induction 1; cbn; lia. Qed.

Lemma search_int_commas_raise run label e :
  short_numbers run ->
  search_int_commas run (field_re label digit_comma) = Raise e ->
  no_digits run (label, digit_comma).
Proof.
  unfold search_int_commas, field_re, no_digits. cbn [fst snd]. intros Hshort Ho.
  destruct (search _ run) as [m|] eqn:Hs; [|discriminate].
  apply search_labelled_some in Hs as (g & -> & Hf).
  exists g. split; [exact Hf|].
  change (group [g] 1) with g in Ho.
  destruct (first_field_piece _ _ _ _ Hf) as (a & b & Hrun).
  destruct Hf as (pre & s' & _ & (ws & post & _ & _ & _ & Hg & Hd & _) & _).
  pose proof (Hshort a g b Hrun Hd) as Hl.
  destruct (remove_commas g) as [|c r] eqn:E; [reflexivity|].
  rewrite <- E in Ho, Hl.
  rewrite int_digits in Ho;
    [discriminate | rewrite E; discriminate | | exact Hl].
  now apply remove_commas_digits.
Qed.

Lemma extract_raise run label cls e :
  extract run (field_re label cls) = Raise e -> not_a_number run (label, cls).
Proof.
  unfold extract, field_re, not_a_number. cbn [fst snd]. intros Ho.
  destruct (search _ run) as [m|] eqn:Hs; [|discriminate].
  apply search_labelled_some in Hs as (g & -> & Hf).
  exists g. split; [exact Hf|].
  change (group [g] 1) with g in Ho. unfold float in Ho.
  destruct (is_float_literal (remove_commas g)); [discriminate | reflexivity].
Qed.


Ltac find_field lem :=
  repeat first [ apply Exists_cons_hd; eapply lem; eassumption
               | apply Exists_cons_tl ].

(** A segment that is not malformed and whose numbers are short is
    parsed without an exception. *)
Lemma parse_run_total run :
  ~ malformed run -> short_numbers run -> exists r, parse_run run = Ok r.
Proof.
  intros Hwf Hshort. unfold parse_run.
  destruct (search header_re run) as [m|] eqn:Hm; [|eauto].
  destruct (header_search_some _ _ Hm)
    as (Hhf & g1 & g2 & g3 & g4 & g5 & g6 & -> & Hints).
  destruct (Hints Hshort) as (H1 & H2 & H3 & H5 & H6).
  change (group [g1; g2; g3; g4; g5; g6] 1) with g1.
  change (group [g1; g2; g3; g4; g5; g6] 2) with g2.
  change (group [g1; g2; g3; g4; g5; g6] 3) with g3.
  change (group [g1; g2; g3; g4; g5; g6] 5) with g5.
  change (group [g1; g2; g3; g4; g5; g6] 6) with g6.
  rewrite H1, H2, H3, H5, H6. cbn [bind].
  unfold prompts_per_group_re, total_prompts_re, total_input_tokens_re,
    total_output_tokens_re.
  destruct (search_int_total run "Prompts per group:" Hshort) as (pg & ->).
  destruct (search_int_total run "Total prompts:" Hshort) as (tp & ->).
  cbn [bind].
  destruct (search_int_commas run (field_re "Total input tokens:" _)) eqn:Hti;
    [|exfalso; apply Hwf; split;
      [exact Hhf | left; find_field (search_int_commas_raise run)]].
  destruct (search_int_commas run (field_re "Total output tokens:" _)) eqn:Hto;
    [|exfalso; apply Hwf; split;
      [exact Hhf | left; find_field (search_int_commas_raise run)]].
  cbn [bind].
  destruct (Re.contains result_marker run) eqn:Hmark; [|eauto].
  assert (Hmf : marker_found run) by (apply contains_true; exact Hmark).
  unfold successful_requests_re, duration_re, req_throughput_re,
    input_tok_throughput_re, output_tok_throughput_re, total_tok_throughput_re,
    mean_e2e_re, mean_ttft_re, mean_itl_re.
  repeat match goal with
         | |- context [extract run (field_re ?l ?c)] =>
             destruct (extract run (field_re l c)) eqn:?;
             [ cbn [bind]
             | exfalso; apply Hwf; split;
               [exact Hhf | right; split; [exact Hmf | find_field extract_raise]] ]
         end.
  eauto.
Qed.

(** A segment that is skipped lacks the header or the result block. *)
Lemma parse_run_none run :
  parse_run run = Ok None -> ~ (header_found run /\ marker_found run).
Proof.
  unfold parse_run. intros Hp [Hh (pre & post & Hmk)].
  destruct (search header_re run) as [m|] eqn:Hm.
  - do 9 (apply bind_ok in Hp as (? & _ & Hp)).
    subst run. rewrite contains_app in Hp.
    do 9 (apply bind_ok in Hp as (? & _ & Hp)). discriminate.
  - exact (header_search_none _ Hm Hh).
Qed.

Lemma parse_run_emit run d :
  parse_run run = Ok (Some d) -> header_found run /\ marker_found run.
Proof.
  intros Hp. apply parse_run_some in Hp
    as (m & ql & ol & con & xp & yd & pg & tp & ti & to & rt & it & ot & tt
        & e2e & ttft & itl & Hm & Hmark & _).
  split.
  - now apply header_search_some in Hm.
  - now apply contains_true.
Qed.

(** The loop appends the records of the segments, in order. *)
Lemma parse_runs_records : forall runs acc results,
  parse_runs runs acc = Ok results ->
  exists ds, results = acc ++ ds /\ records_of runs ds.
Proof.
  induction runs as [|run runs IH]; intros acc results Hp; cbn in Hp.
  - injection Hp as <-. exists []. rewrite app_nil_r. split; [reflexivity|constructor].
  - apply bind_ok in Hp as ([d|] & Hr & Hp).
    + destruct (IH _ _ Hp) as (ds & -> & Hds).
      exists (d :: ds). rewrite <- app_assoc. split; [reflexivity|].
      destruct (parse_run_emit _ _ Hr). now constructor.
    + destruct (IH _ _ Hp) as (ds & -> & Hds).
      exists ds. split; [reflexivity|].
      apply records_skip; [now apply parse_run_none | exact Hds].
Qed.

Lemma parse_runs_total : forall runs acc,
  (forall run, In run runs -> ~ malformed run /\ short_numbers run) ->
  exists results, parse_runs runs acc = Ok results.
Proof.
  induction runs as [|run runs IH]; intros acc Hwf; cbn.
  - eauto.
  - destruct (parse_run_total run) as (r & ->);
      [apply Hwf; now left | apply Hwf; now left |].
    cbn. apply IH. intros run' Hin. apply Hwf. now right.
Qed.


(** *** Deciding whether a segment is malformed *)

Lemma token_fields_chars : Forall value_chars_ok token_fields.
Proof.
  repeat constructor; intros c Hc; apply digit_comma_dot_not_space;
    cbn in Hc; unfold digit_comma_dot, digit_comma in *;
    rewrite Hc; reflexivity.
Qed.

Lemma metric_fields_chars : Forall value_chars_ok metric_fields.
Proof.
  repeat constructor; intros c Hc; apply digit_comma_dot_not_space;
    cbn in Hc; unfold digit_comma_dot, digit_comma, digit_dot in *;
    try (rewrite Hc; reflexivity);
    apply orb_true_iff in Hc as [-> | ->]; rewrite ?orb_true_r; reflexivity.
Qed.

Lemma captured_first_field test run f g :
  value_chars_ok f -> first_field (L (fst f)) (snd f) run g ->
  captured test run f = test (remove_commas g).
Proof.
  intros Hok Hf. unfold captured, field_re.
  destruct (search _ run) as [m|] eqn:Hs.
  - apply search_labelled_some in Hs as (g' & -> & Hf').
    change (group [g'] 1) with g'.
    now rewrite (first_field_unique _ _ _ _ _ Hok Hf Hf').
  - apply search_labelled_none in Hs.
    now apply no_field_first_field with (g := g) in Hs.
Qed.

Lemma malformed_malformedb run : malformed run -> malformedb run = true.
Proof.
  intros [(pre & w & post & gs & -> & Hm) Hbad]. unfold malformedb.
  destruct (search header_re _) eqn:Hs;
    [|exfalso; exact (search_complete _ pre w post gs Hm Hs)].
  apply orb_true_iff. destruct Hbad as [Hbad | [(pre' & post' & Hmk) Hbad]].
  - left. apply existsb_exists. apply Exists_exists in Hbad as (f & Hin & g & Hf & Hg).
    exists f. split; [exact Hin|].
    rewrite (captured_first_field _ _ f g); [now rewrite Hg | | exact Hf].
    exact (proj1 (Forall_forall _ _) token_fields_chars f Hin).
  - right. rewrite Hmk at 1. rewrite contains_app. cbn [andb].
    apply existsb_exists. apply Exists_exists in Hbad as (f & Hin & g & Hf & Hg).
    exists f. split; [exact Hin|].
    rewrite (captured_first_field _ _ f g); [now rewrite Hg | | exact Hf].
    exact (proj1 (Forall_forall _ _) metric_fields_chars f Hin).
Qed.

(** *** The exceptions of the parser *)

Lemma bind_raise {A B} (m : result A) (k : A -> result B) e :
  bind m k = Raise e -> m = Raise e \/ exists a, m = Ok a /\ k a = Raise e.
Proof. destruct m; cbn; [eauto | intros [= ->]; auto]. Qed.

Lemma int_raise s e : int s = Raise e -> is_value_error e.
Proof.
  unfold int.
  destruct s; [|destruct (forallb _ _); [destruct (within_limit _)|]];
    intros [= <-]; eexists; reflexivity.
Qed.

Lemma float_raise s e : float s = Raise e -> is_value_error e.
Proof.
  unfold float. destruct (is_float_literal s); intros [= <-].
  eexists; reflexivity.
Qed.

Lemma search_int_raise run p e : search_int run p = Raise e -> is_value_error e.
Proof.
  unfold search_int. destruct (search p run); [|discriminate].
  intros Hb. apply bind_raise in Hb as [Hb | (? & _ & [=])].
  eapply int_raise; eauto.
Qed.

Lemma search_int_commas_raise_value run p e :
  search_int_commas run p = Raise e -> is_value_error e.
Proof.
  unfold search_int_commas. destruct (search p run); [|discriminate].
  intros Hb. apply bind_raise in Hb as [Hb | (? & _ & [=])].
  eapply int_raise; eauto.
Qed.

Lemma extract_raise_value run p e : extract run p = Raise e -> is_value_error e.
Proof.
  unfold extract. destruct (search p run); [|discriminate].
  intros Hb. apply bind_raise in Hb as [Hb | (? & _ & [=])].
  eapply float_raise; eauto.
Qed.

Ltac raise_step H :=
  apply bind_raise in H as [H | (? & _ & H)];
  [ first [ eapply int_raise; eassumption
          | eapply search_int_raise; eassumption
          | eapply search_int_commas_raise_value; eassumption
          | eapply extract_raise_value; eassumption ] | ].

(** Whatever the parser raises is a [ValueError]. *)
Lemma parse_run_raise run e : parse_run run = Raise e -> is_value_error e.
Proof.
  unfold parse_run. intros Hp.
  destruct (search header_re run); [|discriminate].
  do 9 raise_step Hp.
  destruct (Re.contains result_marker run); [|discriminate].
  do 9 raise_step Hp. discriminate.
Qed.

Lemma parse_runs_raise : forall runs acc e,
  parse_runs runs acc = Raise e -> is_value_error e.
Proof.
  induction runs as [|run runs IH]; intros acc e Hp; cbn in Hp; [discriminate|].
  apply bind_raise in Hp as [Hp | (r & _ & Hp)].
  - eapply parse_run_raise; eauto.
  - eapply IH; eauto.
Qed.


(** *** A malformed segment ends the parse *)

Lemma search_int_commas_ok run f o :
  value_chars_ok f ->
  search_int_commas run (field_re (fst f) (snd f)) = Ok o ->
  ~ no_digits run f.
Proof.
  intros Hok Ho (g & Hf & Hg). unfold search_int_commas in Ho.
  pose proof (captured_first_field
                (fun v => match v with [] => true | _ => false end)
                run f g Hok Hf) as Hc.
  unfold captured in Hc. rewrite Hg in Hc.
  destruct (search _ run) as [m|] eqn:Hs; cbv beta iota in Hc;
    [|discriminate Hc].
  apply bind_ok in Ho as (n & Hn & _). apply int_ok in Hn as (Hn & _).
  destruct (remove_commas (group m 1)); [contradiction | discriminate Hc].
Qed.

Lemma extract_ok run f o :
  value_chars_ok f ->
  extract run (field_re (fst f) (snd f)) = Ok o ->
  ~ not_a_number run f.
Proof.
  intros Hok Ho (g & Hf & Hg). unfold extract in Ho.
  pose proof (captured_first_field (fun v => negb (is_float_literal v))
                run f g Hok Hf) as Hc.
  unfold captured in Hc. rewrite Hg in Hc.
  destruct (search _ run) as [m|] eqn:Hs; cbv beta in Hc; [|discriminate Hc].
  apply bind_ok in Ho as (x & Hx & _). unfold float in Hx.
  apply negb_true_iff in Hc. rewrite Hc in Hx. discriminate Hx.
Qed.

(** A segment that is parsed without an exception is not malformed. *)
Lemma parse_run_ok run r : parse_run run = Ok r -> ~ malformed run.
Proof.
  unfold parse_run. intros Hp [Hh Hbad].
  destruct (search header_re run) as [m|] eqn:Hm;
    [|exact (header_search_none _ Hm Hh)].
  do 7 (apply bind_ok in Hp as (? & _ & Hp)).
  apply bind_ok in Hp as (ti & Hti & Hp).
  apply bind_ok in Hp as (to & Hto & Hp).
  destruct Hbad as [Hbad | [(pre & post & Hmk) Hbad]].
  - unfold token_fields in Hbad.
    repeat match goal with
           | H : Exists _ (_ :: _) |- _ => apply Exists_cons in H as [H | H]
           | H : Exists _ [] |- _ => inversion H
           end.
    + revert Hbad. eapply search_int_commas_ok; [|exact Hti].
      exact (Forall_inv token_fields_chars).
    + revert Hbad. eapply search_int_commas_ok; [|exact Hto].
      exact (Forall_inv (Forall_inv_tail token_fields_chars)).
  - rewrite Hmk in Hp at 1. rewrite contains_app in Hp.
    apply Exists_exists in Hbad as (f & Hin & Hbad).
    pose proof (proj1 (Forall_forall _ _) metric_fields_chars f Hin) as Hok.
    assert (Hex : exists o, extract run (field_re (fst f) (snd f)) = Ok o).
    { unfold metric_fields in Hin. cbn [In] in Hin.
      repeat match type of Hp with
             | bind (extract run ?p) _ = Ok _ =>
                 let H := fresh "Hx" in
                 apply bind_ok in Hp as (? & H & Hp)
             end.
      repeat destruct Hin as [<- | Hin]; try contradiction; eauto. }
    destruct Hex as (o & Ho). exact (extract_ok _ _ _ Hok Ho Hbad).
Qed.

Lemma malformed_raises run :
  malformed run -> exists msg, parse_run run = Raise (ValueError msg).
Proof.
  intros Hbad. destruct (parse_run run) as [r|e] eqn:Hp.
  - exfalso. exact (parse_run_ok _ _ Hp Hbad).
  - apply parse_run_raise in Hp as (msg & ->). eauto.
Qed.

(** One malformed segment is enough for the whole parse to raise. *)
Lemma malformed_segment_ends_the_parse content :
  Exists malformed (runs_of content) ->
  exists msg, parse_content content = Raise (ValueError msg).
Proof.
  unfold parse_content. generalize (@nil dict) as acc.
  induction (runs_of content) as [|run runs IH]; intros acc Hex;
    [inversion Hex|].
  cbn [parse_runs]. destruct (parse_run run) as [r|e] eqn:Hp.
  - apply Exists_cons in Hex as [Hbad | Hex];
      [exfalso; exact (parse_run_ok _ _ Hp Hbad)|].
    cbn [bind]. now apply IH.
  - apply parse_run_raise in Hp as (msg & ->). cbn. eauto.
Qed.

(** C4, amended: when no segment is malformed (none has a value written
    with commas only, or a metric that is not a number) and none holds
    a stretch of digits and commas with more than 4300 digits, which
    the interpreter does not convert to an integer, the parser returns,
    and its records are those of the segments that have both a header
    and a result block, one each and in order; the other segments give
    nothing, so there are at most as many records as segments. *)
Theorem complete_segments_give_the_records content :
  (forall run, In run (runs_of content) ->
     ~ malformed run /\ short_numbers run) ->
  exists results,
    parse_content content = Ok results
    /\ records_of (runs_of content) results
    /\ (length results <= length (runs_of content))%nat.
Proof.
  intros Hwf. unfold parse_content.
  destruct (parse_runs_total (runs_of content) [] Hwf) as (results & Hp).
  exists results. split; [exact Hp|].
  apply parse_runs_records in Hp as (ds & -> & Hds). cbn.
  split; [exact Hds | now apply records_of_length].
Qed.

End WithFloat.

Lemma contains_false sub s :
  Re.contains sub s = false -> forall pre post, s <> pre ++ sub ++ post.
Proof.
  intros Hc pre post ->. rewrite contains_app in Hc. discriminate.
Qed.

(** A segment within the limit as a whole has short numbers. *)
Lemma short_segment run : within_limit run = true -> short_numbers run.
Proof.
  intros Hl pre g post -> _. exact (within_limit_piece pre g post Hl).
Qed.

Lemma complete_segments_witness :
  (forall run, In run (runs_of Sample.log) ->
     ~ malformed run /\ short_numbers run)
  /\ exists results,
       @parse_content Decimal.model Sample.log = Ok results
       /\ records_of (runs_of Sample.log) results
       /\ (length results <= length (runs_of Sample.log))%nat.
Proof.
  assert (Hwf : forall run, In run (runs_of Sample.log) ->
                  ~ malformed run /\ short_numbers run).
  { intros run Hin. split.
    - intros Hm. apply malformed_malformedb in Hm.
      vm_compute in Hin. destruct Hin as [<- | [<- | [<- | []]]];
        vm_compute in Hm; discriminate Hm.
    - apply short_segment.
      vm_compute in Hin. destruct Hin as [<- | [<- | [<- | []]]];
        reflexivity. }
  split; [exact Hwf|].
  exact (complete_segments_give_the_records Sample.log Hwf).
Defined.

(** A segment with a header and no result block, whose token count is
    just a comma, raises instead of giving nothing. *)
Lemma bare_comma_raises :
  (exists run, runs_of Sample.log_with_bare_comma = [run]
               /\ header_found run /\ ~ marker_found run)
  /\ @parse_content Decimal.model Sample.log_with_bare_comma
     = Raise (ValueError (L "invalid literal for int() with base 10: ''")).
Proof.
  split; [|reflexivity].
  eexists. split; [vm_compute; reflexivity|]. split.
  - destruct (search header_re (hd [] (runs_of Sample.log_with_bare_comma)))
      as [m|] eqn:Hs; [|vm_compute in Hs; discriminate Hs].
    now apply header_search_some in Hs.
  - intros (pre & post & Heq). revert Heq. apply contains_false.
    vm_compute. reflexivity.
Qed.

(** A segment whose header has a sequence length of 4301 digits raises
    too: the interpreter does not convert it. *)
Lemma long_number_raises :
  exists msg,
    @parse_content Decimal.model
      (L "[RUNNING] prompts isl " ++ repeat "1"%char 4301
         ++ L " osl 2 con 3 model m xP=1 yD=2")
    = Raise (ValueError msg).
Proof. eexists. vm_compute. reflexivity. Qed.

(** A segment with a header and a result block, one of whose metrics has
    two dots, raises instead of giving a record. *)
Lemma two_dots_raise :
  @parse_content Decimal.model Sample.log_with_two_dots
  = Raise (ValueError (L "could not convert string to float: '1.2.3'")).
Proof. reflexivity. Qed.

Lemma optional_fields_witness :
  @parse_run Decimal.model Sample.complete_run = Ok (Some (hd [] Sample.records))
  /\ (is_record (hd [] Sample.records)
      /\ Forall (field_read Sample.complete_run (hd [] Sample.records))
                optional_fields).
Proof.
  assert (Hp : @parse_run Decimal.model Sample.complete_run
               = Ok (Some (hd [] Sample.records)))
    by reflexivity.
  split; [exact Hp|].
  exact (optional_fields_hold_first_values Sample.complete_run _ Hp).
Defined.

(** A prompt count written [1,234] is read as 1: the pattern of that
    field has no comma. *)
Lemma total_prompts_read_up_to_comma :
  exists d,
    @parse_run Decimal.model Sample.run_with_comma = Ok (Some d)
    /\ dict_get d (L "Total_Prompts") = CInt 1
    /\ int_of_digits (remove_commas (L "1,234")) = 1234%Z.
Proof.
  eexists. split; [reflexivity|]. split; reflexivity.
Qed.

End ParserFacts.

(* ================================================================= *)
(** ** The reporter *)

Module ReportFacts.
Import Re Py BenchmarkParser Spec ReFacts PyFacts ParserFacts.

Section WithFloat.
Context {FM : Float}.

Lemma records_of_keys runs ds : records_of runs ds -> Forall is_record ds.
Proof.
  induction 1; [constructor | constructor | assumption]; [|assumption].
  eapply parse_run_keys; eassumption.
Qed.

Lemma parse_content_keys content results :
  parse_content content = Ok results -> Forall is_record results.
Proof.
  unfold parse_content. intros Hp.
  apply parse_runs_records in Hp as (ds & -> & Hds).
  now apply records_of_keys in Hds.
Qed.

(** The frame of a nonempty list of records has the keys as labels. *)
Lemma DataFrame_columns results :
  results <> [] -> Forall is_record results ->
  columns (DataFrame results) = record_keys.
Proof.
  intros Hne Hall. unfold columns, DataFrame. rewrite map_map. cbn [fst].
  rewrite map_id.
  destruct results as [|d ds]; [contradiction|].
  inversion Hall as [|? ? Hd Hds]; subst. cbn [fold_left].
  rewrite Hd. change (add_keys [] record_keys) with record_keys.
  clear -Hds. induction Hds as [|d' ds Hd' _ IH]; cbn [fold_left]; [reflexivity|].
  rewrite Hd'. exact IH.
Qed.

Lemma str_eqb_refl a : str_eqb a a = true.
Proof. induction a as [|c a IH]; cbn; [reflexivity|]. now rewrite Ascii.eqb_refl. Qed.

Lemma str_eqb_eq : forall a b, str_eqb a b = true -> a = b.
Proof.
  induction a as [|c a IH]; intros [|d b] Hab; cbn in Hab; try discriminate.
  - reflexivity.
  - apply andb_true_iff in Hab as [Hc Hab].
    apply Ascii.eqb_eq in Hc. subst d. f_equal. auto.
Qed.

(** Each column of the frame holds the values of its key, one for each
    record, with the type that pandas gives the column. *)
Lemma DataFrame_column results k :
  results <> [] -> Forall is_record results -> In k record_keys ->
  column (DataFrame results) k
  = infer_column (map (fun d => dict_get d k) results).
Proof.
  intros Hne Hall Hk.
  pose proof (DataFrame_columns results Hne Hall) as Hcols.
  unfold columns, DataFrame in Hcols. rewrite map_map in Hcols. cbn [fst] in Hcols.
  rewrite map_id in Hcols.
  unfold column, DataFrame. rewrite Hcols. clear Hcols.
  induction record_keys as [|k' ks IH]; [contradiction|].
  cbn [map find fst]. destruct (str_eqb k' k) eqn:Hkk.
  - apply str_eqb_eq in Hkk. now subst k'.
  - destruct Hk as [-> | Hk]; [now rewrite str_eqb_refl in Hkk | auto].
Qed.

(** Compact mode asks for labels that the frame does not have. *)
Lemma getitem_compact df :
  columns df = record_keys ->
  getitem df compact_columns = Raise (KeyError missing_labels).
Proof.
  intros Hc. unfold getitem, has_column. rewrite Hc. reflexivity.
Qed.

(** *** Frames in the heap *)

Lemma update_other : forall h r r' v,
  r' <> r -> nth r' (update h r v) [] = nth r' h [].
Proof.
  induction h as [|x h IH]; intros [|r] [|r'] v Hne; cbn; try reflexivity.
  - contradiction.
  - apply IH. congruence.
Qed.

(** Formatting changes the frame it is given and no other: a copy keeps
    the change away from the original. *)
Lemma format_cols_other f cols r : forall h o h',
  format_cols f cols r h = (o, h') ->
  forall r', r' <> r -> nth r' h' [] = nth r' h [].
Proof.
  induction cols as [|c cols IH]; intros h o h' Hf r' Hne; cbn in Hf.
  - now injection Hf as _ <-.
  - unfold pbind, deref, when in Hf. cbn in Hf.
    destruct (has_column (nth r h []) c).
    + unfold pbind, lift, assign in Hf.
      destruct (apply f (column (nth r h []) c)) as [xs|e]; cbn in Hf.
      * destruct (format_cols f cols r (update h r _)) as [[tr res] h1] eqn:Hrec.
        assert (h1 = h') by (destruct res; now injection Hf). subst h1.
        rewrite (IH _ _ _ Hrec r' Hne). now apply update_other.
      * now injection Hf as _ <-.
    + cbn in Hf.
      destruct (format_cols f cols r h) as [[tr res] h1] eqn:Hrec.
      assert (h1 = h') by (destruct res; now injection Hf). subst h1.
      exact (IH _ _ _ Hrec r' Hne).
Qed.

Lemma format_dataframe_other r h o h' :
  format_dataframe r h = (o, h') ->
  forall r', r' <> r -> nth r' h' [] = nth r' h [].
Proof.
  unfold format_dataframe, pbind. intros Hf r' Hne.
  destruct (format_cols fmt_float numeric_cols r h) as [[tr res] h1] eqn:H1.
  destruct res as [s|[]].
  - injection Hf as _ <-. exact (format_cols_other _ _ _ _ _ _ H1 r' Hne).
  - destruct (format_cols fmt_int integer_cols r h1) as [[tr2 res2] h2] eqn:H2.
    assert (h2 = h') by (destruct res2 as [|[]]; now injection Hf). subst h2.
    rewrite (format_cols_other _ _ _ _ _ _ H2 r' Hne).
    exact (format_cols_other _ _ _ _ _ _ H1 r' Hne).
Qed.

Lemma format_cols_absent f cols r h :
  forallb (fun c => negb (has_column (nth r h []) c)) cols = true ->
  format_cols f cols r h = (([], inr tt), h).
Proof.
  induction cols as [|c cols IH]; cbn [forallb format_cols]; [reflexivity|].
  intros Hc. apply andb_true_iff in Hc as [Hc Hcols].
  apply negb_true_iff in Hc. unfold pbind, deref, when.
  match goal with
  | |- context [if ?b then _ else _] =>
      replace b with false by (symmetry; exact Hc)
  end.
  unfold pret. now rewrite IH.
Qed.

(** The formatter names labels that the frame does not have either, so
    it leaves the frame, and the heap, as they are. *)
Lemma format_dataframe_id r h :
  columns (nth r h []) = record_keys ->
  format_dataframe r h = (([], inr r), h).
Proof.
  intros Hc. unfold format_dataframe, pbind.
  rewrite !format_cols_absent; [reflexivity | |];
    unfold has_column; rewrite Hc; reflexivity.
Qed.

(** *** Runs of [main] *)

(** Unfold the steps of a program, and nothing of the data. *)
Ltac run_prog :=
  cbv beta iota zeta delta
    [exec main parse_benchmark_log pbind try_except emit lift pret when
     sys_exit eprint print parser_error DataFrame_new select copy
     print_table to_csv new_frame deref assign
     length nth app negb fst snd].

Variable E : env.

Lemma main_rejected a :
  no_screen a = true -> truthy (csv a) = false ->
  exec (main E a) = ([Usage (L "--no-screen requires --csv option")], inl (SysExit 2)).
Proof.
  intros Hn Hc. unfold exec, main. rewrite Hn, Hc. reflexivity.
Qed.

Lemma main_read_error a e :
  accepted a -> read_file E (logfile a) = Raise e ->
  exec (main E a) =
  ([Open (logfile a);
    Stderr (report a (if is_file_not_found e then Missing else Failed e))],
   inl (SysExit 1)).
Proof.
  intros Ha Hr. unfold exec, main, parse_benchmark_log. rewrite Ha, Hr.
  destruct e; reflexivity.
Qed.

Lemma main_parse_error a content e :
  accepted a -> read_file E (logfile a) = Ok content ->
  parse_content content = Raise e ->
  exec (main E a) = ([Open (logfile a); Stderr (report a (Failed e))], inl (SysExit 1)).
Proof.
  intros Ha Hr Hp. unfold exec, main, parse_benchmark_log. rewrite Ha, Hr.
  run_prog. rewrite Hp.
  destruct (parse_runs_raise _ _ _ Hp) as (msg & ->). reflexivity.
Qed.

Lemma main_no_results a content :
  accepted a -> read_file E (logfile a) = Ok content ->
  parse_content content = Ok [] ->
  exec (main E a) = ([Open (logfile a); Stderr (report a Empty)], inl (SysExit 1)).
Proof.
  intros Ha Hr Hp. unfold exec, main, parse_benchmark_log. rewrite Ha, Hr.
  run_prog. rewrite Hp. reflexivity.
Qed.

(** Each failure is reported by its own message, with status 1. *)
Lemma main_fails a f :
  accepted a -> fails E a f ->
  exec (main E a) = ([Open (logfile a); Stderr (report a f)], inl (SysExit 1)).
Proof.
  intros Ha [msg Hr | e Hr He | content e Hr Hp | content Hr Hp].
  - now rewrite (main_read_error _ _ Ha Hr).
  - rewrite (main_read_error _ _ Ha Hr), He. reflexivity.
  - exact (main_parse_error _ _ _ Ha Hr Hp).
  - exact (main_no_results _ _ Ha Hr Hp).
Qed.

(** The three messages differ, whatever the path and the exception. *)
Lemma reports_differ a a' f f' :
  same_failure f f' = false -> report a f <> report a' f'.
Proof.
  destruct f, f'; cbn; intros Hs; try discriminate.
Qed.

(** With [--compact] every run that has records stops on the missing
    labels, before anything is printed or written. *)
Lemma main_compact a content results :
  accepted a -> compact a = true ->
  read_file E (logfile a) = Ok content ->
  parse_content content = Ok results -> results <> [] ->
  exec (main E a)
  = ([Open (logfile a)], inl (Uncaught (KeyError missing_labels))).
Proof.
  intros Ha Hc Hr Hp Hne. unfold exec, main, parse_benchmark_log.
  rewrite Ha, Hr, Hc. run_prog. rewrite Hp.
  pose proof (DataFrame_columns results Hne (parse_content_keys _ _ Hp)) as Hcols.
  destruct results as [|d ds]; [contradiction|]. run_prog.
  rewrite (getitem_compact _ Hcols). reflexivity.
Qed.

(** Without [--compact], a run that has records shows and saves the
    frame of the records as it is. *)
Lemma main_full a content results :
  accepted a -> compact a = false ->
  read_file E (logfile a) = Ok content ->
  parse_content content = Ok results -> results <> [] ->
  let df := DataFrame results in
  exec (main E a) =
  match csv a with
  | Some (c :: path) =>
      match write_file E (c :: path) with
      | Ok _ =>
          (Open (logfile a)
             :: (if no_screen a then [] else screen results df)
             ++ ToCsv (c :: path) df
             :: (if no_screen a then []
                 else [Stdout (Text (nl ++ L "Results saved to: " ++ c :: path))]),
           inr tt)
      | Raise e =>
          (Open (logfile a)
             :: (if no_screen a then [] else screen results df)
             ++ [Stderr (L "Error saving CSV file: " ++ exn_message e)],
           inl (SysExit 1))
      end
  | _ => (Open (logfile a) :: (if no_screen a then [] else screen results df),
          inr tt)
  end.
Proof.
  intros Ha Hc Hr Hp Hne df. unfold exec, main, parse_benchmark_log.
  rewrite Ha, Hr, Hc. run_prog. rewrite Hp.
  pose proof (DataFrame_columns results Hne (parse_content_keys _ _ Hp)) as Hcols.
  fold df in Hcols |- *.
  destruct results as [|d ds]; [contradiction|]. run_prog.
  rewrite (format_dataframe_id 1 [df; df] Hcols).
  destruct (csv a) as [[|c path]|]; destruct (no_screen a);
    try reflexivity;
    destruct (write_file E (c :: path)); reflexivity.
Qed.

(** Without [--compact], a file that is written is the one asked for
    and holds the frame of the records. *)
Lemma main_full_csv a content results p df :
  accepted a -> compact a = false ->
  read_file E (logfile a) = Ok content ->
  parse_content content = Ok results -> results <> [] ->
  In (ToCsv p df) (trace (exec (main E a))) ->
  csv a = Some p /\ df = DataFrame results.
Proof.
  intros Ha Hc Hr Hp Hne Hin.
  pose proof (main_full a content results Ha Hc Hr Hp Hne) as Hm.
  cbv zeta in Hm. rewrite Hm in Hin. clear Hm.
  assert (Hscreen : forall q v,
             ~ In (ToCsv q v)
                  (if no_screen a then []
                   else screen results (DataFrame results))).
  { intros q v H. destruct (no_screen a); [contradiction|].
    cbn in H. destruct H as [H | [H | [H | [H | []]]]]; discriminate H. }
  destruct (csv a) as [[|c path]|].
  - destruct Hin as [H | Hin]; [discriminate H | now apply Hscreen in Hin].
  - destruct (write_file E (c :: path)) as [[]|e];
      (destruct Hin as [H | Hin]; [discriminate H|]);
      apply in_app_or in Hin as [Hin | Hin];
      try (now apply Hscreen in Hin).
    + destruct Hin as [H | Hin]; [injection H as <- <-; auto|].
      destruct (no_screen a); [contradiction|].
      destruct Hin as [H | []]. discriminate H.
    + destruct Hin as [H | []]. discriminate H.
  - destruct Hin as [H | Hin]; [discriminate H | now apply Hscreen in Hin].
Qed.

(** Whatever the flags and the files, a CSV file that is written holds
    the frame that pandas makes of the parsed records. *)
Lemma every_csv_holds_the_records a p df :
  In (ToCsv p df) (trace (exec (main E a))) ->
  exists content results,
    read_file E (logfile a) = Ok content
    /\ parse_content content = Ok results
    /\ csv a = Some p
    /\ df = DataFrame results
    /\ forall k, In k record_keys ->
         column df k = infer_column (map (fun d => dict_get d k) results).
Proof.
  intros Hin.
  destruct (no_screen a && negb (truthy (csv a))) eqn:Ha.
  { apply andb_true_iff in Ha as [Hn Hc]. apply negb_true_iff in Hc.
    rewrite (main_rejected _ Hn Hc) in Hin.
    destruct Hin as [H | []]. discriminate H. }
  assert (Hacc : accepted a) by exact Ha. clear Ha.
  destruct (read_file E (logfile a)) as [content|e] eqn:Hr.
  2: { rewrite (main_read_error _ _ Hacc Hr) in Hin.
       destruct Hin as [H | [H | []]]; discriminate H. }
  destruct (parse_content content) as [results|e] eqn:Hp.
  2: { rewrite (main_parse_error _ _ _ Hacc Hr Hp) in Hin.
       destruct Hin as [H | [H | []]]; discriminate H. }
  destruct results as [|d ds] eqn:Hres.
  { rewrite (main_no_results _ _ Hacc Hr Hp) in Hin.
    destruct Hin as [H | [H | []]]; discriminate H. }
  rewrite <- Hres in *.
  assert (Hne : results <> []) by (rewrite Hres; discriminate).
  destruct (compact a) eqn:Hc.
  { rewrite (main_compact _ _ _ Hacc Hc Hr Hp Hne) in Hin.
    destruct Hin as [H | []]. discriminate H. }
  destruct (main_full_csv a content results p df Hacc Hc Hr Hp Hne Hin)
    as [Hcsv ->].
  exists content, results. repeat split; auto.
  intros k Hk. apply DataFrame_column; auto.
  now apply parse_content_keys in Hp.
Qed.

(** C7, amended: a run that the flags allow has three failures before
    anything is shown, each with its own message on the error stream and
    exit status 1: a log file that does not exist ([FileNotFoundError])
    is reported as not found; any other exception raised while the file
    is opened, read or parsed, a file that exists and cannot be read
    among them, is reported as a parse error; a file that is read and
    has no record is reported as having no results.  The three messages
    differ. *)
Theorem failures_have_their_own_report a f :
  accepted a -> fails E a f ->
  exec (main E a) = ([Open (logfile a); Stderr (report a f)], inl (SysExit 1))
  /\ exit_status (exec (main E a)) <> 0
  /\ forall a' f', same_failure f f' = false -> report a f <> report a' f'.
Proof.
  intros Ha Hf. rewrite (main_fails _ _ Ha Hf).
  split; [reflexivity|]. split; [discriminate|].
  intros a' f'. apply reports_differ.
Qed.

(** C8: with [--no-screen] and without [--csv] the run is an error of
    use: the message goes to the error stream, the status is not 0, and
    no file is opened, whatever the file system holds. *)
Theorem no_screen_without_csv_is_rejected a :
  no_screen a = true -> csv a = None ->
  exec (main E a) = ([Usage (L "--no-screen requires --csv option")], inl (SysExit 2))
  /\ exit_status (exec (main E a)) <> 0
  /\ forall p, ~ In (Open p) (trace (exec (main E a))).
Proof.
  intros Hn Hc. rewrite main_rejected by (rewrite ?Hc; auto).
  split; [reflexivity|]. split; [discriminate|].
  intros p [H | []]. discriminate H.
Qed.

Lemma main_csv_write_fails a :
  accepted a -> csv_write_fails E a -> exit_status (exec (main E a)) = 1.
Proof.
  intros Ha (content & results & c & path & e & Hc & Hr & Hp & Hne & Hcsv & Hw).
  pose proof (main_full a content results Ha Hc Hr Hp Hne) as Hm.
  cbv zeta in Hm. rewrite Hcsv, Hw in Hm. rewrite Hm. reflexivity.
Qed.

(** C10: the error of use ([--no-screen] without [--csv]) exits with
    status 2, and the failures at run time (file not found, parse
    failure, no results, CSV file not written) exit with status 1. *)
Theorem exit_status_tells_use_from_run_time a b :
  no_screen a = true -> csv a = None ->
  accepted b -> runtime_failure E b ->
  exit_status (exec (main E a)) = 2 /\ exit_status (exec (main E b)) = 1.
Proof.
  intros Hn Hc Hb Hf. split.
  - rewrite main_rejected by (rewrite ?Hc; auto). reflexivity.
  - destruct Hf as [(f & Hf) | Hf].
    + rewrite (main_fails _ _ Hb Hf). reflexivity.
    + now apply main_csv_write_fails.
Qed.

End WithFloat.

(** *** The sample log *)

Ltac run_main :=
  match goal with
  | |- context [exec (main ?e ?a)] =>
      let v := eval vm_compute in (exec (main e a)) in
      change (exec (main e a)) with v
  end.

(** C1: on a log with a complete run, [--compact] selects labels that
    the frame does not have ([xP/yD] for [xP_yD], and so on): the run
    stops on a [KeyError] that nothing catches, with nothing shown. *)
Theorem compact_run_stops_on_missing_labels (FM : Float) :
  exec (main (Sample.disk Sample.log) Sample.with_compact)
  = ([Open Sample.path], inl (Uncaught (KeyError missing_labels)))
  /\ exit_status (exec (main (Sample.disk Sample.log) Sample.with_compact)) = 1%Z.
Proof. split; vm_compute; reflexivity. Qed.

(** C2: on a log with a complete run, [--compact] with [--csv] writes
    no file at all: the run stops on the missing labels before
    [to_csv], while the same run without [--compact] writes the frame
    of the sixteen record keys to the file named.  So the file is not
    the same with and without the flag. *)
Theorem compact_csv_run_writes_no_file (FM : Float) :
  exec (main (Sample.disk Sample.log) Sample.with_compact_csv)
  = ([Open Sample.path], inl (Uncaught (KeyError missing_labels)))
  /\ (forall p df,
        ~ In (ToCsv p df)
             (trace (exec (main (Sample.disk Sample.log) Sample.with_compact_csv))))
  /\ exists df,
       In (ToCsv (L "out.csv") df)
          (trace (exec (main (Sample.disk Sample.log) Sample.with_csv)))
       /\ columns df = record_keys.
Proof.
  split; [vm_compute; reflexivity|]. split.
  - intros p df. vm_compute. intros [H | []]. discriminate H.
  - run_main. eexists.
    split; [cbn [trace fst In]; do 5 right; left; reflexivity | reflexivity].
Qed.

(** C3: the table shown holds the numbers as they were parsed: the
    formatter looks for labels that the frame does not have, so the
    token count 1234567 is not grouped as [1,234,567] and the
    throughput is not cut to two decimals. *)
Theorem screen_shows_unformatted_values (FM : Float) :
  exists df,
    In (Stdout (Table df)) (trace (exec (main (Sample.disk Sample.log) Sample.plain)))
    /\ column df (L "Total_Input_Tokens") = [CInt 1234567]
    /\ column df (L "Request_Throughput_req_s")
       = [CFloat (float_of_literal (L "12.3456"))]
    /\ format_dataframe 0%nat [df] = (([], inr 0%nat), [df])
    /\ format_grouped 1234567 = L "1,234,567".
Proof.
  run_main. eexists. split; [cbn [trace fst In]; do 3 right; left; reflexivity|].
  repeat split; reflexivity.
Qed.

Lemma failures_witness :
  accepted Sample.elsewhere
  /\ @fails Decimal.model (Sample.disk Sample.log) Sample.elsewhere Missing
  /\ (exec (@main Decimal.model (Sample.disk Sample.log) Sample.elsewhere)
      = ([Open (logfile Sample.elsewhere);
          Stderr (report Sample.elsewhere Missing)], inl (SysExit 1))
      /\ exit_status (exec (@main Decimal.model (Sample.disk Sample.log) Sample.elsewhere))
         <> 0%Z
      /\ forall a' f', same_failure Missing f' = false ->
                       report Sample.elsewhere Missing <> report a' f').
Proof.
  assert (Ha : accepted Sample.elsewhere) by reflexivity.
  assert (Hf : @fails Decimal.model (Sample.disk Sample.log) Sample.elsewhere
                      Missing)
    by (eapply fails_missing; reflexivity).
  split; [exact Ha|]. split; [exact Hf|].
  exact (failures_have_their_own_report (Sample.disk Sample.log)
           Sample.elsewhere Missing Ha Hf).
Defined.

(** A log that exists and may not be read is reported as a parse error,
    not as a file that is not found. *)
Lemma unreadable_log_is_reported_as_parse_error :
  exec (@main Decimal.model Sample.locked_disk Sample.plain)
  = ([Open Sample.path;
      Stderr (L "Error parsing log file: [Errno 13] Permission denied: 'bench.log'")],
     inl (SysExit 1))
  /\ L "Error parsing log file: [Errno 13] Permission denied: 'bench.log'"
     <> report Sample.plain Missing.
Proof. split; [reflexivity | discriminate]. Qed.

Lemma no_screen_without_csv_witness :
  no_screen Sample.with_no_screen = true
  /\ csv Sample.with_no_screen = None
  /\ (exec (@main Decimal.model (Sample.disk Sample.log) Sample.with_no_screen)
      = ([Usage (L "--no-screen requires --csv option")], inl (SysExit 2))
      /\ exit_status (exec (@main Decimal.model (Sample.disk Sample.log)
                        Sample.with_no_screen)) <> 0%Z
      /\ forall p, ~ In (Open p)
                        (trace (exec (@main Decimal.model (Sample.disk Sample.log) Sample.with_no_screen)))).
Proof.
  split; [reflexivity|]. split; [reflexivity|].
  exact (no_screen_without_csv_is_rejected (Sample.disk Sample.log)
           Sample.with_no_screen eq_refl eq_refl).
Defined.

Lemma exit_status_witness :
  no_screen Sample.with_no_screen = true
  /\ csv Sample.with_no_screen = None
  /\ accepted Sample.with_csv
  /\ @runtime_failure Decimal.model Sample.read_only_disk Sample.with_csv
  /\ (exit_status (exec (@main Decimal.model Sample.read_only_disk Sample.with_no_screen))
      = 2%Z
      /\ exit_status (exec (@main Decimal.model Sample.read_only_disk Sample.with_csv))
         = 1%Z).
Proof.
  assert (Hf : @runtime_failure Decimal.model Sample.read_only_disk Sample.with_csv).
  { right. exists Sample.log, Sample.records. do 3 eexists.
    repeat split; try reflexivity. discriminate. }
  split; [reflexivity|]. split; [reflexivity|]. split; [reflexivity|].
  split; [exact Hf|].
  exact (exit_status_tells_use_from_run_time Sample.read_only_disk
           Sample.with_no_screen Sample.with_csv eq_refl eq_refl eq_refl Hf).
Defined.

End ReportFacts.

(* ================================================================= *)
(** ** The port waiter *)

Module SocketWaitFacts.
Import ITree.ITree ITree.ITreeFacts ITree.Events.State ITree.Events.StateFacts.
Import ITreeNotations.
Import SocketWait.
Local Open Scope itree_scope.

#[local] Arguments poll : simpl never.
#[local] Arguments waiting_msg : simpl never.
#[local] Arguments closed_msg : simpl never.

(** Run the event at the head of the program. *)
Ltac run_event :=
  rewrite ?bind_bind; rewrite interp_state_bind, interp_state_trigger; cbn;
  rewrite bind_ret_l; cbn.

Section Outcomes.
Variable outcomes : nat -> Z.
Variables (host : str) (port interval : Z).

(** An attempt that connects is followed by one sleep, and the loop
    goes on. *)
Lemma poll_success w :
  outcomes (attempts w) = 0 ->
  interp_state (handle outcomes) (poll host port interval) w
  ≈ interp_state (handle outcomes) (poll host port interval)
      {| attempts := S (attempts w);
         log := log w ++ [Attempt host port 2; Slept interval] |}.
Proof.
  intros Hopen. unfold poll at 1. rewrite unfold_iter. unfold is_port_open.
  run_event. rewrite Hopen. cbn. rewrite bind_ret_l. cbn.
  run_event. rewrite bind_ret_l. rewrite interp_state_tau, tau_eutt.
  unfold record. cbn [attempts log]. rewrite <- app_assoc. reflexivity.
Qed.

(** An attempt that fails ends the loop, with no sleep. *)
Lemma poll_failure w :
  outcomes (attempts w) <> 0 ->
  interp_state (handle outcomes) (poll host port interval) w
  ≈ Ret ({| attempts := S (attempts w);
            log := log w ++ [Attempt host port 2] |}, tt).
Proof.
  intros Hclosed. unfold poll. rewrite unfold_iter. unfold is_port_open.
  run_event. apply Z.eqb_neq in Hclosed. rewrite Hclosed. cbn.
  rewrite !bind_ret_l. rewrite interp_state_ret. reflexivity.
Qed.

(** As long as the attempts connect, the loop has made one round for
    each and is still running. *)
Lemma poll_rounds n : forall w,
  (forall j, (j < n)%nat -> outcomes (attempts w + j)%nat = 0) ->
  interp_state (handle outcomes) (poll host port interval) w
  ≈ interp_state (handle outcomes) (poll host port interval)
      {| attempts := (attempts w + n)%nat;
         log := log w ++ rounds host port interval n |}.
Proof.
  induction n as [|n IH]; intros w Hopen.
  - cbn. rewrite app_nil_r, Nat.add_0_r. destruct w; reflexivity.
  - rewrite poll_success by (rewrite <- (Hopen 0%nat) by lia; f_equal; lia).
    rewrite IH; cbn.
    + rewrite <- app_assoc. cbn.
      replace (S (attempts w + n)) with (attempts w + S n)%nat by lia.
      reflexivity.
    + intros j Hj. rewrite <- (Hopen (S j)) by lia. f_equal. lia.
Qed.

Lemma count_sleeps_rounds n :
  count_sleeps (rounds host port interval n) = n.
Proof.
  unfold count_sleeps. induction n as [|n IH]; cbn; [reflexivity|].
  now rewrite IH.
Qed.

End Outcomes.

Lemma count_sleeps_final host port n : count_sleeps (final_log host port n) = n.
Proof.
  unfold final_log, count_sleeps. cbn. rewrite filter_app, length_app. cbn.
  fold (count_sleeps (rounds host port 5 n)). rewrite count_sleeps_rounds. lia.
Qed.

(** After the first message and [n] attempts that connected, the script
    has made [n] rounds and is polling again. *)
Lemma waiter_rounds outcomes host port n :
  (forall j, (j < n)%nat -> outcomes j = 0) ->
  run outcomes (script host port)
  ≈ interp_state (handle outcomes)
      (poll host port 5 ;;
       ITree.trigger (Print (closed_msg host port)) ;; Ret 0)
      {| attempts := n;
         log := Printed (waiting_msg host port) :: rounds host port 5 n |}.
Proof.
  intros Hopen. unfold run, script, wait_while_port_open.
  run_event. rewrite bind_bind, !interp_state_bind.
  rewrite (poll_rounds outcomes host port 5 n) by (cbn; exact Hopen).
  reflexivity.
Qed.

(** An attempt that fails after [n] rounds ends the script. *)
Lemma waiter_ends outcomes host port n :
  (forall j, (j < n)%nat -> outcomes j = 0) -> outcomes n <> 0 ->
  run outcomes (script host port)
  ≈ Ret ({| attempts := S n; log := final_log host port n |}, 0).
Proof.
  intros Hopen Hclosed.
  rewrite waiter_rounds by exact Hopen.
  rewrite interp_state_bind.
  rewrite poll_failure by (cbn; exact Hclosed).
  rewrite bind_ret_l. cbn.
  run_event. rewrite interp_state_ret.
  unfold final_log, record. cbn. rewrite <- app_assoc. reflexivity.
Qed.

(** When the first attempt fails, the script prints its two messages
    around that one attempt. *)
Lemma closed_port_ends_at_once outcomes host port :
  outcomes 0%nat <> 0 ->
  run outcomes (script host port)
  ≈ Ret ({| attempts := 1;
            log := [Printed (waiting_msg host port); Attempt host port 2;
                    Printed (closed_msg host port)] |}, 0).
Proof.
  intros Hclosed. apply (waiter_ends outcomes host port 0); [|exact Hclosed].
  intros j Hj. lia.
Qed.

(** C9: whatever the attempts return, while the first [n] of them
    connect the script makes [n] rounds of one attempt and one sleep of
    5 seconds and polls again; if the next attempt fails, for any
    reason, it makes that attempt and ends with status 0 without
    sleeping again.  With [n = 0]: when the first attempt fails the
    script ends without any sleep. *)
Theorem waiter_sleeps_once_after_each_open_attempt outcomes host port n :
  (forall j, (j < n)%nat -> outcomes j = 0) ->
  run outcomes (script host port)
  ≈ interp_state (handle outcomes)
      (poll host port 5 ;;
       ITree.trigger (Print (closed_msg host port)) ;; Ret 0)
      {| attempts := n;
         log := Printed (waiting_msg host port) :: rounds host port 5 n |}
  /\ count_sleeps (rounds host port 5 n) = n
  /\ (outcomes n <> 0 ->
      run outcomes (script host port)
      ≈ Ret ({| attempts := S n; log := final_log host port n |}, 0)
      /\ count_sleeps (final_log host port n) = n).
Proof.
  intros Hopen. split; [now apply waiter_rounds|].
  split; [apply count_sleeps_rounds|].
  intros Hclosed. split; [now apply waiter_ends | apply count_sleeps_final].
Qed.

Lemma waiter_witness :
  (forall j, (j < 2)%nat -> open_twice j = 0)
  /\ open_twice 2 <> 0
  /\ run open_twice (script (L "10.0.0.1") 8000)
     ≈ interp_state (handle open_twice)
         (poll (L "10.0.0.1") 8000 5 ;;
          ITree.trigger (Print (closed_msg (L "10.0.0.1") 8000)) ;; Ret 0)
         {| attempts := 2;
            log := Printed (waiting_msg (L "10.0.0.1") 8000)
                     :: rounds (L "10.0.0.1") 8000 5 2 |}
  /\ count_sleeps (rounds (L "10.0.0.1") 8000 5 2) = 2%nat
  /\ run open_twice (script (L "10.0.0.1") 8000)
     ≈ Ret ({| attempts := 3; log := final_log (L "10.0.0.1") 8000 2 |}, 0)
  /\ count_sleeps (final_log (L "10.0.0.1") 8000 2) = 2%nat.
Proof.
  assert (Hopen : forall j, (j < 2)%nat -> open_twice j = 0).
  { intros [|[|j]] Hj; [reflexivity | reflexivity | lia]. }
  assert (Hclosed : open_twice 2 <> 0) by discriminate.
  destruct (waiter_sleeps_once_after_each_open_attempt open_twice
              (L "10.0.0.1") 8000 2 Hopen) as (Hrounds & Hcount & Hend).
  destruct (Hend Hclosed) as (Hret & Hcount').
  repeat (split; [assumption|]). assumption.
Defined.

End SocketWaitFacts.

(* ================================================================= *)
(** ** Numbers as text *)

Module PyLaws.
Import Re Py PyFacts.
Local Open Scope Z_scope.

Lemma digits_of_uint d :
  forallb is_digit (L (NilEmpty.string_of_uint d)) = true.
Proof. induction d; cbn; auto. Qed.

Lemma fold_digits_of_uint d : forall acc,
  fold_left (fun acc c => 10 * acc + digit_val c)
            (L (NilEmpty.string_of_uint d)) acc
  = acc * 10 ^ Z.of_N (DecimalPos.Unsigned.usize d)
    + Z.of_N (DecimalPos.Unsigned.of_lu (Decimal.rev d)).
Proof.
  induction d; intros acc; [cbn; lia | ..];
    cbn [NilEmpty.string_of_uint L list_ascii_of_string fold_left];
    rewrite IHd; unfold Decimal.rev at 2; cbn [Decimal.revapp];
    match goal with
    | |- context [Decimal.revapp d ?x] =>
        rewrite (DecimalPos.Unsigned.of_lu_revapp d x);
        let v := eval vm_compute in (DecimalPos.Unsigned.of_lu x) in
        change (DecimalPos.Unsigned.of_lu x) with v
    end;
    match goal with
    | |- context [digit_val ?c] =>
        let v := eval vm_compute in (digit_val c) in
        change (digit_val c) with v
    end;
    cbn [DecimalPos.Unsigned.usize];
    rewrite N2Z.inj_succ, Z.pow_succ_r, N2Z.inj_add, N2Z.inj_mul, N2Z.inj_pow
      by lia;
    match goal with
    | |- context [Z.of_N ?n * _] =>
        let v := eval vm_compute in (Z.of_N n) in
        change (Z.of_N n) with v
    end;
    change (Z.of_N 10) with 10; ring.
Qed.

Lemma string_of_uint_nonnil d :
  d <> Decimal.Nil ->
  NilZero.string_of_uint d = NilEmpty.string_of_uint d
  /\ L (NilEmpty.string_of_uint d) <> [].
Proof.
  intros Hd. destruct d; [contradiction | ..]; (split; [reflexivity | discriminate]).
Qed.

(** [str(n)] is written with digits, and [int] reads it back. *)
Lemma str_of_int_digits n :
  0 <= n ->
  str_of_int n <> [] /\ forallb is_digit (str_of_int n) = true
  /\ int_of_digits (str_of_int n) = n.
Proof.
  intros Hn. unfold str_of_int, int_of_digits.
  destruct n as [|p|p]; [repeat split; discriminate | | lia].
  cbn [Z.to_int NilZero.string_of_int].
  destruct (string_of_uint_nonnil _ (DecimalPos.Unsigned.to_uint_nonnil p)) as [-> Hne].
  split; [exact Hne|]. split; [apply digits_of_uint|].
  rewrite fold_digits_of_uint, <- DecimalPos.Unsigned.of_uint_alt, DecimalPos.Unsigned.of_to.
  reflexivity.
Qed.

Lemma int_str n :
  0 <= n -> within_limit (str_of_int n) = true -> int (str_of_int n) = Ok n.
Proof.
  intros Hn Hl. destruct (str_of_int_digits n Hn) as (Hne & Hd & Hv).
  rewrite int_digits by assumption. now rewrite Hv.
Qed.

(** *** [int] on the texts that the parser converts *)

Lemma digit_code c : is_digit c = true -> (48 <= code c <= 57)%N.
Proof.
  unfold is_digit. intros H. apply andb_true_iff in H as [H1 H2].
  apply N.leb_le in H1, H2. lia.
Qed.

Lemma digit_not_space c : is_digit c = true -> is_int_space c = false.
Proof.
  intros H. apply digit_code in H. unfold is_int_space.
  repeat (apply orb_false_iff; split);
    first [ apply N.eqb_neq; lia
          | apply andb_false_iff; right; apply N.leb_gt; lia ].
Qed.

Lemma lstrip_digits s : forallb is_digit s = true -> lstrip s = s.
Proof.
  destruct s as [|c s]; [reflexivity|]. cbn [forallb lstrip]. intros H.
  apply andb_true_iff in H as [Hc _]. now rewrite (digit_not_space c Hc).
Qed.

Lemma forallb_rev {A} (f : A -> bool) l : forallb f (rev l) = forallb f l.
Proof.
  induction l as [|x l IH]; [reflexivity|].
  cbn [rev forallb]. rewrite forallb_app, IH. cbn [forallb].
  rewrite andb_true_r. apply andb_comm.
Qed.

Lemma strip_digits s : forallb is_digit s = true -> strip s = s.
Proof.
  intros H. unfold strip. rewrite (lstrip_digits s H).
  rewrite lstrip_digits by (now rewrite forallb_rev).
  apply rev_involutive.
Qed.

Lemma scan_digits_all s : forall b,
  forallb is_digit s = true ->
  scan_digits s b
  = match s with
    | [] => if b then Some ([], []) else None
    | _ :: _ => Some (s, [])
    end.
Proof.
  induction s as [|c s IH]; intros b H; [reflexivity|].
  cbn [forallb] in H. apply andb_true_iff in H as [Hc Hs].
  cbn [scan_digits]. rewrite Hc, (IH true Hs). now destruct s.
Qed.

(** On a text of digits, [int] is [int] on any text. *)
Lemma int_of_text_digits s :
  forallb is_digit s = true -> int_of_text s = int s.
Proof.
  intros H. unfold int_of_text, int. rewrite (strip_digits s H).
  destruct s as [|c s]; [reflexivity|].
  assert (Hc : is_digit c = true)
    by (cbn [forallb] in H; now apply andb_true_iff in H).
  apply digit_code in Hc.
  replace (code c =? 45)%N with false by (symmetry; apply N.eqb_neq; lia).
  replace (code c =? 43)%N with false by (symmetry; apply N.eqb_neq; lia).
  rewrite (scan_digits_all (c :: s) false H), H.
  destruct (within_limit (c :: s)); [|reflexivity].
  now rewrite Z.mul_1_l.
Qed.

Lemma digit_not_comma c : is_digit c = true -> is_comma c = false.
Proof.
  intros Hd. destruct (is_comma c) eqn:Hc; [|reflexivity].
  apply comma_not_digit in Hc. congruence.
Qed.

(** The commas that the grouping puts in are the ones that
    [replace(',', '')] takes out. *)
Lemma remove_commas_group3 : forall rd n acc,
  forallb is_digit rd = true ->
  remove_commas (group3 rd n acc) = rev rd ++ remove_commas acc.
Proof.
  induction rd as [|d rd IH]; intros n acc Hd; [reflexivity|].
  cbn [forallb] in Hd. apply andb_true_iff in Hd as [Hd Hrd].
  apply digit_not_comma in Hd.
  cbn [group3 rev]. rewrite <- app_assoc. cbn [app].
  assert (Hstep : forall acc', remove_commas (d :: acc') = d :: remove_commas acc').
  { intros acc'. unfold remove_commas. cbn [filter]. now rewrite Hd. }
  destruct n as [|[|[|[|n]]]]; rewrite IH by assumption; rewrite ?Hstep;
    reflexivity.
Qed.

Lemma group3_chars : forall rd n acc,
  forallb is_digit rd = true -> forallb digit_comma acc = true ->
  forallb digit_comma (group3 rd n acc) = true.
Proof.
  induction rd as [|d rd IH]; intros n acc Hd Ha; [exact Ha|].
  cbn [forallb] in Hd. apply andb_true_iff in Hd as [Hd Hrd].
  assert (Hdc : digit_comma d = true) by (unfold digit_comma; now rewrite Hd).
  cbn [group3].
  destruct n as [|[|[|[|n]]]]; apply IH; auto; cbn [forallb app L list_ascii_of_string];
    rewrite Hdc, ?Ha; reflexivity.
Qed.

End PyLaws.

(* ================================================================= *)
(** ** Logs, segments and records *)

Module ParserLaws.
Import Re Py BenchmarkParser Spec ReFacts PyFacts ParserFacts Laws PyLaws.

(** *** Splitting the log *)

Lemma strip_prefix_more p : forall x r y,
  strip_prefix p x = Some r -> strip_prefix p (x ++ y) = Some (r ++ y).
Proof.
  induction p as [|c p IH]; intros x r y Hx; cbn in Hx |- *.
  - now injection Hx as <-.
  - destruct x as [|d x]; [discriminate|]. cbn.
    destruct (Ascii.eqb c d); [auto | discriminate].
Qed.

Lemma strip_prefix_short p : forall x y z,
  (length p <= length x)%nat ->
  strip_prefix p (x ++ y) = None -> strip_prefix p (x ++ z) = None.
Proof.
  induction p as [|c p IH]; intros x y z Hl Hx; cbn in Hx |- *; [discriminate|].
  destruct x as [|d x]; [cbn in Hl; lia|]. cbn in Hx |- *.
  destruct (Ascii.eqb c d); [|reflexivity].
  eapply IH; [|exact Hx]. cbn in Hl. lia.
Qed.

Lemma contains_suffix sub : forall a s,
  contains sub (a ++ s) = false -> contains sub s = false.
Proof.
  induction a as [|c a IH]; intros s Hc; [exact Hc|].
  cbn [app contains] in Hc.
  destruct (strip_prefix sub (c :: a ++ s)); [discriminate|]. auto.
Qed.

Lemma contains_here sub s :
  contains sub s = false -> strip_prefix sub s = None.
Proof.
  destruct s; cbn; destruct (strip_prefix sub _); auto; discriminate.
Qed.

(** Characters are collected as long as no separator begins. *)
Lemma split_lit_run sep : forall seg tail cur,
  (forall a b, seg = a ++ b -> b <> [] -> strip_prefix sep (b ++ tail) = None) ->
  split_lit sep (seg ++ tail) 0 cur = split_lit sep tail 0 (rev seg ++ cur).
Proof.
  induction seg as [|c seg IH]; intros tail cur Hno; [reflexivity|].
  assert (H0 : strip_prefix sep (c :: seg ++ tail) = None)
    by (apply (Hno [] (c :: seg)); [reflexivity | discriminate]).
  cbn [app split_lit]. rewrite H0, IH.
  - cbn [rev]. now rewrite <- app_assoc.
  - intros a b -> Hb. apply (Hno (c :: a) b); auto.
Qed.

Lemma split_lit_skip sep : forall x rest cur,
  split_lit sep (x ++ rest) (length x) cur = split_lit sep rest 0 cur.
Proof.
  induction x as [|c x IH]; intros rest cur; [reflexivity|].
  cbn [app length split_lit]. apply IH.
Qed.

Lemma split_lit_sep c sep rest cur :
  split_lit (c :: sep) ((c :: sep) ++ rest) 0 cur
  = rev cur :: split_lit (c :: sep) rest 0 [].
Proof.
  pose proof (strip_prefix_app (c :: sep) rest) as Hs.
  cbn [app] in Hs. cbn [app split_lit]. rewrite Hs.
  replace (length (c :: sep) - 1)%nat with (length sep) by (cbn [length]; lia).
  now rewrite split_lit_skip.
Qed.

Lemma split_lit_marker rest cur :
  split_lit run_marker (run_marker ++ rest) 0 cur
  = rev cur :: split_lit run_marker rest 0 [].
Proof. exact (split_lit_sep "["%char (L "RUNNING]") rest cur). Qed.

Lemma clear_before_marker seg rest a b :
  clear_of_marker seg -> seg = a ++ b -> b <> [] ->
  strip_prefix run_marker (b ++ run_marker ++ rest) = None.
Proof.
  unfold clear_of_marker. intros Hc -> Hb.
  rewrite <- app_assoc in Hc. apply contains_suffix, contains_here in Hc.
  change (run_marker ++ rest) with (L "[RUNNING" ++ "]"%char :: rest).
  rewrite app_assoc. rewrite <- (app_nil_r (b ++ L "[RUNNING")) in Hc.
  eapply strip_prefix_short; [|exact Hc].
  rewrite length_app. destruct b; [contradiction|]. cbn. lia.
Qed.

Lemma clear_at_end seg a b :
  clear_of_marker seg -> seg = a ++ b ->
  strip_prefix run_marker (b ++ []) = None.
Proof.
  unfold clear_of_marker. intros Hc ->.
  rewrite <- app_assoc in Hc. apply contains_suffix, contains_here in Hc.
  rewrite app_nil_r.
  destruct (strip_prefix run_marker b) eqn:Hb; [|reflexivity].
  now rewrite (strip_prefix_more _ _ _ _ Hb) in Hc.
Qed.

Lemma split_log_of : forall segs pre cur,
  Forall clear_of_marker (pre :: segs) ->
  split_lit run_marker (log_of pre segs) 0 cur = (rev cur ++ pre) :: segs.
Proof.
  unfold log_of.
  induction segs as [|seg segs IH]; intros pre cur Hall;
    inversion Hall as [|? ? Hpre Hsegs]; subst; cbn [map concat].
  - rewrite split_lit_run by (intros a b Hab _; eapply clear_at_end; eauto).
    cbn [split_lit]. now rewrite rev_app_distr, rev_involutive.
  - rewrite <- app_assoc.
    rewrite split_lit_run
      by (intros a b Hab Hb; eapply clear_before_marker; eauto).
    rewrite split_lit_marker, rev_app_distr, rev_involutive. f_equal.
    exact (IH seg [] Hsegs).
Qed.

(** X1: the segments of a log are the texts that stand after each marker,
    in order; what stands before the first marker is dropped, so the
    log is parsed as if it began with its first marker. *)
Theorem segments_are_the_texts_after_the_markers (FM : Float) pre segs :
  Forall clear_of_marker (pre :: segs) ->
  runs_of (log_of pre segs) = segs
  /\ parse_content (log_of pre segs) = parse_runs segs []
  /\ parse_content (log_of pre segs) = parse_content (log_of [] segs).
Proof.
  intros Hall.
  assert (Hruns : forall p, clear_of_marker p -> runs_of (log_of p segs) = segs).
  { intros p Hp. unfold runs_of, split. fold run_marker.
    rewrite split_log_of; [reflexivity|].
    constructor; [exact Hp | exact (Forall_inv_tail Hall)]. }
  unfold parse_content.
  rewrite (Hruns pre (Forall_inv Hall)), (Hruns [] eq_refl). auto.
Qed.

Lemma segments_witness :
  Forall clear_of_marker [L "warming up"; L " first run"; L " second [run]"]
  /\ (runs_of (log_of (L "warming up") [L " first run"; L " second [run]"])
      = [L " first run"; L " second [run]"]
      /\ @parse_content Decimal.model
           (log_of (L "warming up") [L " first run"; L " second [run]"])
         = parse_runs [L " first run"; L " second [run]"] []
      /\ @parse_content Decimal.model
           (log_of (L "warming up") [L " first run"; L " second [run]"])
         = parse_content (log_of [] [L " first run"; L " second [run]"])).
Proof.
  assert (H : Forall clear_of_marker
                [L "warming up"; L " first run"; L " second [run]"])
    by (repeat constructor).
  split; [exact H|].
  exact (segments_are_the_texts_after_the_markers Decimal.model _ _ H).
Defined.

Lemma runs_of_no_marker content :
  contains run_marker content = false -> runs_of content = [].
Proof.
  intros Hc. unfold runs_of, split. fold run_marker.
  rewrite <- (app_nil_r content). rewrite split_lit_run; [reflexivity|].
  intros a b -> _. rewrite app_nil_r.
  now apply contains_suffix, contains_here in Hc.
Qed.

(** *** What the records hold *)

Lemma int_of_digits_from s : forall acc,
  forallb is_digit s = true -> 0 <= acc ->
  0 <= fold_left (fun acc c => 10 * acc + digit_val c) s acc.
Proof.
  induction s as [|c s IH]; intros acc Hd Hacc; [exact Hacc|].
  cbn [forallb] in Hd. apply andb_true_iff in Hd as [Hc Hs].
  cbn [fold_left]. apply IH; [exact Hs|].
  assert (0 <= digit_val c); [|lia].
  unfold digit_val. unfold is_digit in Hc.
  apply andb_true_iff in Hc as [Hlo _]. apply N.leb_le in Hlo. lia.
Qed.

Lemma int_nonneg s n : int s = Ok n -> 0 <= n.
Proof.
  intros Hi. apply int_ok in Hi as (_ & Hd & ->).
  apply int_of_digits_from; [exact Hd | lia].
Qed.

Section WithFloat.
Context {FM : Float}.

Lemma search_int_nonneg run p n : search_int run p = Ok (Some n) -> 0 <= n.
Proof.
  unfold search_int. destruct (search p run); [|discriminate].
  intros Hb. apply bind_ok in Hb as (k & Hk & [= <-]).
  exact (int_nonneg _ _ Hk).
Qed.

Lemma search_int_commas_nonneg run p n :
  search_int_commas run p = Ok (Some n) -> 0 <= n.
Proof.
  unfold search_int_commas. destruct (search p run); [|discriminate].
  intros Hb. apply bind_ok in Hb as (k & Hk & [= <-]).
  exact (int_nonneg _ _ Hk).
Qed.

Lemma of_opt_int_ok o :
  (forall n, o = Some n -> 0 <= n) ->
  of_opt_int o = CNone \/ exists n, of_opt_int o = CInt n /\ 0 <= n.
Proof. destruct o as [n|]; [right; exists n | left]; auto. Qed.

Lemma parse_run_header_values run d :
  parse_run run = Ok (Some d) ->
  header_values d /\ Forall (count_ok d) count_keys.
Proof.
  intros Hp.
  apply parse_run_some in Hp
    as (m & ql & ol & con & xp & yd & pg & tp & ti & to & rt & it & ot & tt
        & e2e & ttft & itl & Hm & _ & Hql & Hol & Hcon & Hxp & Hyd
        & Hpg & Htp & Hti & Hto & _ & _ & _ & _ & _ & _ & _ & ->).
  apply search_sound in Hm as (pre & w & post & _ & Hw).
  apply header_groups in Hw
    as (g1 & g2 & g3 & g4 & g5 & g6 & -> & _ & _ & _ & [Hne Hns] & _ & _).
  pose proof (int_nonneg _ _ Hxp) as Hxp0.
  pose proof (int_nonneg _ _ Hyd) as Hyd0.
  split.
  - exists g4, ql, ol, con, xp, yd.
    repeat split; try reflexivity; try assumption;
      try (eapply int_nonneg; eassumption);
      now apply str_of_int_digits.
  - unfold count_keys. repeat apply Forall_cons; try apply Forall_nil;
      unfold count_ok; apply of_opt_int_ok; intros n ->;
      first [ eapply search_int_nonneg; eassumption
            | eapply search_int_commas_nonneg; eassumption ].
Qed.

Lemma records_of_header_values runs ds :
  records_of runs ds ->
  Forall (fun d => header_values d /\ Forall (count_ok d) count_keys) ds.
Proof.
  induction 1; [constructor | constructor | assumption]; [|assumption].
  now apply parse_run_header_values with (run := run).
Qed.

Lemma parse_run_typed run d : parse_run run = Ok (Some d) -> well_typed d.
Proof.
  intros Hp.
  apply parse_run_some in Hp
    as (m & ql & ol & con & xp & yd & pg & tp & ti & to & rt & it & ot & tt
        & e2e & ttft & itl & _ & _ & _ & _ & _ & _ & _
        & _ & _ & _ & _ & _ & _ & _ & _ & _ & _ & _ & ->).
  intros k Hk. unfold record_keys in Hk. cbn [In] in Hk.
  repeat (destruct Hk as [<- | Hk]; [cbn | ]); try contradiction;
    try discriminate; eauto;
    match goal with
    | |- context [of_opt_int ?o] => destruct o; cbn; eauto
    | |- context [of_opt_float ?o] => destruct o; cbn; discriminate
    end.
Qed.

Lemma parse_content_typed content results :
  parse_content content = Ok results -> Forall well_typed results.
Proof.
  unfold parse_content. intros Hp.
  apply parse_runs_records in Hp as (ds & -> & Hds). cbn [app].
  induction Hds; [constructor | constructor | assumption]; [|assumption].
  now apply parse_run_typed with (run := run).
Qed.

(** X2: every record of a parsed log names its model by a text that is not
    empty and has no white space, its lengths and its concurrency by
    numbers that are not negative, and its topology by two such numbers
    written in decimal as [<x>p<y>d]; each of its four counts is absent
    or not negative. *)
Theorem records_hold_the_header_values content results :
  parse_content content = Ok results ->
  Forall (fun d => is_record d /\ header_values d
                   /\ Forall (count_ok d) count_keys) results.
Proof.
  unfold parse_content. intros Hp.
  apply parse_runs_records in Hp as (ds & -> & Hds). cbn [app].
  pose proof (records_of_header_values _ _ Hds) as Hv.
  pose proof (ReportFacts.records_of_keys _ _ Hds) as Hk.
  clear Hds. induction Hv as [|d ds [Hd Hc] _ IH]; [constructor|].
  inversion Hk; subst. constructor; auto.
Qed.

Lemma parse_runs_acc runs : forall acc,
  parse_runs runs acc = (ds <- parse_runs runs [] ;; Ok (acc ++ ds))%py.
Proof.
  induction runs as [|run runs IH]; intros acc; cbn [parse_runs bind].
  - now rewrite app_nil_r.
  - destruct (parse_run run) as [[d|]|e]; cbn [bind]; [| apply IH | reflexivity].
    rewrite (IH (acc ++ [d])), (IH ([] ++ [d])).
    destruct (parse_runs runs []) as [ds|e]; cbn [bind]; [|reflexivity].
    now rewrite <- app_assoc.
Qed.

Lemma parse_runs_app a b : forall acc,
  parse_runs (a ++ b) acc
  = (ra <- parse_runs a acc ;; rb <- parse_runs b [] ;; Ok (ra ++ rb))%py.
Proof.
  induction a as [|run a IH]; intros acc; cbn [app parse_runs bind].
  - apply parse_runs_acc.
  - destruct (parse_run run) as [r|e]; cbn [bind]; [apply IH | reflexivity].
Qed.

(** X3: each segment is parsed on its own: the records of a log made of two
    logs are the records of the first and then those of the second, and
    the parse raises when the parse of one of them does. *)
Theorem records_of_joined_logs pre segs1 segs2 :
  Forall clear_of_marker (pre :: segs1 ++ segs2) ->
  parse_content (log_of pre (segs1 ++ segs2))
  = (r1 <- parse_content (log_of pre segs1) ;;
     r2 <- parse_content (log_of [] segs2) ;;
     Ok (r1 ++ r2))%py.
Proof.
  intros Hall. inversion Hall as [|? ? Hpre Hsegs]; subst.
  apply Forall_app in Hsegs as [H1 H2].
  assert (Hruns : forall p segs, clear_of_marker p ->
            Forall clear_of_marker segs -> runs_of (log_of p segs) = segs).
  { intros p segs Hp Hs. unfold runs_of, split. fold run_marker.
    rewrite split_log_of; [reflexivity | now constructor]. }
  unfold parse_content.
  rewrite !Hruns; auto; [apply parse_runs_app | reflexivity|].
  now apply Forall_app.
Qed.

(** X4: whatever the parser raises is a [ValueError]: a log that has been
    read is never reported as a file that is not found. *)
Theorem parser_raises_only_value_errors content e :
  parse_content content = Raise e ->
  is_value_error e /\ is_file_not_found e = false.
Proof.
  unfold parse_content. intros Hp.
  apply parse_runs_raise in Hp as (msg & ->).
  split; [eexists|]; reflexivity.
Qed.

End WithFloat.

(** X5: a count of at most 4300 digits written with a comma before
    every three digits, as the formatter writes it, is read back by the
    parser as the same count. *)
Theorem grouped_count_is_read_back n :
  0 <= n -> within_limit (str_of_int n) = true ->
  format_comma n = Ok (format_grouped n)
  /\ remove_commas (format_grouped n) = str_of_int n
  /\ int (remove_commas (format_grouped n)) = Ok n
  /\ forall run label,
       first_field (L label) digit_comma run (format_grouped n) ->
       search_int_commas run (field_re label digit_comma) = Ok (Some n).
Proof.
  intros Hn Hl. destruct (str_of_int_digits n Hn) as (Hne & Hd & Hv).
  assert (Hf : format_comma n = Ok (format_grouped n))
    by (unfold format_comma; now rewrite Z.abs_eq, Hl).
  assert (Hg : remove_commas (format_grouped n) = str_of_int n).
  { unfold format_grouped. rewrite (proj2 (Z.ltb_ge n 0) Hn). cbn [app].
    rewrite Z.abs_eq by exact Hn.
    rewrite remove_commas_group3 by (now rewrite forallb_rev).
    rewrite rev_involutive. apply app_nil_r. }
  assert (Hi : int (remove_commas (format_grouped n)) = Ok n)
    by (rewrite Hg; now apply int_str).
  split; [exact Hf|]. split; [exact Hg|]. split; [exact Hi|].
  intros run label Hfield. unfold search_int_commas, field_re.
  destruct (search _ run) as [m|] eqn:Hs.
  - apply search_labelled_some in Hs as (g' & -> & Hf').
    change (group [g'] 1) with g'.
    rewrite <- (first_field_unique _ _ _ _ _
                  (Forall_inv token_fields_chars) Hfield Hf').
    now rewrite Hi.
  - apply search_labelled_none in Hs.
    now apply no_field_first_field with (g := format_grouped n) in Hs.
Qed.

(** Above the limit neither direction is taken: the formatter raises,
    and so does [int] on the digits. *)
Lemma beyond_the_limit n :
  0 <= n -> within_limit (str_of_int n) = false ->
  format_comma n = Raise exceeds_limit
  /\ int (str_of_int n) = Raise (exceeds_limit_of (str_of_int n)).
Proof.
  intros Hn Hl. destruct (str_of_int_digits n Hn) as (Hne & Hd & _).
  split; [unfold format_comma; now rewrite Z.abs_eq, Hl|].
  unfold int. destruct (str_of_int n); [contradiction|]. now rewrite Hd, Hl.
Qed.

Lemma grouped_count_witness :
  0 <= 1234567
  /\ within_limit (str_of_int 1234567) = true
  /\ (format_comma 1234567 = Ok (format_grouped 1234567)
      /\ remove_commas (format_grouped 1234567) = str_of_int 1234567
      /\ int (remove_commas (format_grouped 1234567)) = Ok 1234567
      /\ forall run label,
           first_field (L label) digit_comma run (format_grouped 1234567) ->
           search_int_commas run (field_re label digit_comma)
           = Ok (Some 1234567)).
Proof.
  split; [lia|]. split; [reflexivity|].
  apply (grouped_count_is_read_back 1234567); [lia | reflexivity].
Defined.

Lemma records_witness :
  @parse_content Decimal.model Sample.log = Ok Sample.records
  /\ Forall (fun d => is_record d /\ header_values d
                      /\ Forall (count_ok d) count_keys) Sample.records.
Proof.
  assert (H : @parse_content Decimal.model Sample.log = Ok Sample.records)
    by reflexivity.
  split; [exact H|].
  exact (records_hold_the_header_values Sample.log Sample.records H).
Defined.

Lemma joined_logs_witness :
  Forall clear_of_marker
         (L "warming up" :: [Sample.complete_run] ++ [L " second [run]"])
  /\ @parse_content Decimal.model
       (log_of (L "warming up") ([Sample.complete_run] ++ [L " second [run]"]))
     = (r1 <- parse_content (log_of (L "warming up") [Sample.complete_run]) ;;
        r2 <- parse_content (log_of [] [L " second [run]"]) ;;
        Ok (r1 ++ r2))%py.
Proof.
  assert (H : Forall clear_of_marker
                (L "warming up" :: [Sample.complete_run] ++ [L " second [run]"]))
    by (repeat constructor).
  split; [exact H|].
  exact (records_of_joined_logs (L "warming up") [Sample.complete_run]
           [L " second [run]"] H).
Defined.

Lemma value_errors_witness :
  @parse_content Decimal.model Sample.log_with_two_dots
  = Raise (ValueError (L "could not convert string to float: '1.2.3'"))
  /\ (is_value_error (ValueError (L "could not convert string to float: '1.2.3'"))
      /\ is_file_not_found
           (ValueError (L "could not convert string to float: '1.2.3'")) = false).
Proof.
  assert (H : @parse_content Decimal.model Sample.log_with_two_dots
              = Raise (ValueError (L "could not convert string to float: '1.2.3'")))
    by reflexivity.
  split; [exact H|].
  exact (parser_raises_only_value_errors _ _ H).
Defined.

End ParserLaws.

(* ================================================================= *)
(** ** Runs of the reporter *)

Module MainLaws.
Import Re Py BenchmarkParser Spec ReFacts PyFacts ParserFacts ReportFacts.
Import Laws PyLaws ParserLaws.

Section WithFloat.
Context {FM : Float}.
Variable E : env.

Lemma main_run a : run_of E a (exec (main E a)).
Proof.
  destruct (no_screen a && negb (truthy (csv a))) eqn:Ha.
  { apply andb_true_iff in Ha as [Hn Hc]. apply negb_true_iff in Hc.
    rewrite (main_rejected _ _ Hn Hc). now constructor. }
  assert (Hacc : accepted a) by exact Ha. clear Ha.
  destruct (read_file E (logfile a)) as [content|e] eqn:Hr.
  2: { destruct (is_file_not_found e) eqn:He.
       - destruct e; try discriminate He.
         rewrite (main_fails E a Missing Hacc (fails_missing E a _ Hr)).
         constructor; [exact Hacc | econstructor; eassumption].
       - rewrite (main_fails E a (Failed e) Hacc (fails_read E a e Hr He)).
         constructor; [exact Hacc | now constructor]. }
  destruct (parse_content content) as [results|e] eqn:Hp.
  2: { rewrite (main_fails E a (Failed e) Hacc (fails_parse E a _ _ Hr Hp)).
       constructor; [exact Hacc | econstructor; eassumption]. }
  destruct results as [|d ds] eqn:Hres.
  { rewrite (main_fails E a Empty Hacc (fails_empty E a _ Hr Hp)).
    constructor; [exact Hacc | econstructor; eassumption]. }
  rewrite <- Hres in *.
  assert (Hne : results <> []) by (rewrite Hres; discriminate).
  clear Hres d ds.
  destruct (compact a) eqn:Hc.
  { rewrite (main_compact _ _ _ _ Hacc Hc Hr Hp Hne).
    econstructor; eassumption. }
  pose proof (main_full E a content results Hacc Hc Hr Hp Hne) as Hm.
  cbv zeta in Hm. rewrite Hm. clear Hm.
  destruct (csv a) as [[|c path]|] eqn:Hcsv.
  - eapply run_shown; eauto. now rewrite Hcsv.
  - destruct (write_file E (c :: path)) as [u|e] eqn:Hw.
    + eapply run_saved; eauto.
    + eapply run_not_saved; eauto.
  - eapply run_shown; eauto. now rewrite Hcsv.
Qed.

Lemma screen_events results df e :
  In e (screen results df) -> exists o, e = Stdout o.
Proof.
  intros H. cbn in H. destruct H as [H | [H | [H | [H | []]]]]; subst; eauto.
Qed.

Ltac event_cases H :=
  repeat match type of H with
         | In _ (_ :: _) => destruct H as [H | H]
         | In _ (_ ++ _) => apply in_app_or in H as [H | H]
         | In _ [] => contradiction
         | In _ (if ?b then _ else _) => destruct b eqn:?
         | In _ (screen _ _) => apply screen_events in H as (? & H)
         | _ = _ => first [discriminate H | injection H as H]
         end.

(** X6: the exit status of a run is 0, 1 or 2: it is 2 exactly when the
    flags are refused, and 0 exactly when the run gets to its end. *)
Theorem exit_status_is_0_1_or_2 a :
  let s := exit_status (exec (main E a)) in
  (s = 0 \/ s = 1 \/ s = 2)
  /\ (s = 2 <-> ~ accepted a)
  /\ (s = 0 <-> completes E a).
Proof.
  cbv zeta. unfold completes.
  destruct (main_run a)
    as [Hn Hc | f Ha Hf | content results Ha Hc Hr Hp Hne
        | content results Ha Hc Hr Hp Hne Hcsv
        | content results c path u Ha Hc Hr Hp Hne Hcsv Hw
        | content results c path e Ha Hc Hr Hp Hne Hcsv Hw];
    cbn [exit_status snd].
  - split; [auto|]. split; split.
    + intros _ Ha. unfold accepted in Ha. rewrite Hn, Hc in Ha. discriminate Ha.
    + reflexivity.
    + discriminate.
    + intros [Ha _]. unfold accepted in Ha. rewrite Hn, Hc in Ha. discriminate Ha.
  - split; [auto|]. split; split.
    + discriminate.
    + intros Hna. contradiction.
    + discriminate.
    + intros (_ & _ & (content & results & Hr & Hp & Hne) & _). exfalso.
      destruct Hf as [msg Hr' | e Hr' He | content' e Hr' Hp' | content' Hr' Hp'];
        congruence.
  - split; [auto|]. split; split.
    + discriminate.
    + intros Hna. contradiction.
    + discriminate.
    + intros (_ & Hc' & _). congruence.
  - split; [auto|]. split; split.
    + discriminate.
    + intros Hna. contradiction.
    + intros _. repeat split; eauto.
      intros c path Hcsv'. rewrite Hcsv' in Hcsv. discriminate Hcsv.
    + reflexivity.
  - split; [auto|]. split; split.
    + discriminate.
    + intros Hna. contradiction.
    + intros _. repeat split; eauto.
      intros c' path' Hcsv'. rewrite Hcsv in Hcsv'.
      injection Hcsv' as <- <-. eauto.
    + reflexivity.
  - split; [auto|]. split; split.
    + discriminate.
    + intros Hna. contradiction.
    + discriminate.
    + intros (_ & _ & _ & Hall). destruct (Hall c path Hcsv) as (u & Hu).
      congruence.
Qed.

(** X7: with [--no-screen] nothing is written to standard output. *)
Theorem no_screen_prints_nothing a o :
  no_screen a = true -> ~ In (Stdout o) (trace (exec (main E a))).
Proof.
  intros Hn Hin. destruct (main_run a); cbn [trace fst] in Hin;
    rewrite ?Hn in Hin; event_cases Hin.
Qed.

(** X8: the only file that is opened to be read is the log file named on
    the command line; it is opened once, before anything else is done,
    and only when the flags are accepted. *)
Theorem log_is_opened_first_and_once a p :
  In (Open p) (trace (exec (main E a))) ->
  p = logfile a /\ accepted a
  /\ exists rest,
       trace (exec (main E a)) = Open (logfile a) :: rest
       /\ forall q, ~ In (Open q) rest.
Proof.
  intros Hin.
  destruct (main_run a); cbn [trace fst] in Hin |- *;
    try (destruct Hin as [Hin | []]; discriminate Hin);
    (assert (Hp : p = logfile a) by (event_cases Hin; congruence));
    (split; [exact Hp|]); (split; [assumption|]);
    eexists; (split; [reflexivity|]); intros q Hq; event_cases Hq.
Qed.

(** *** The frame of the records *)

Lemma DataFrame_rows results : has_rows (length results) (DataFrame results).
Proof.
  unfold has_rows, DataFrame. apply Forall_forall. intros col Hin.
  apply in_map_iff in Hin as (k & <- & _). cbn [snd].
  unfold infer_column. destruct (_ && _); now rewrite ?length_map.
Qed.

(** A column of integers with or without gaps becomes a column of
    floats exactly when it has a gap. *)
Lemma infer_column_ints xs :
  Forall (fun x => x = CNone \/ exists n, x = CInt n) xs ->
  infer_column xs
  = if existsb (fun x => negb (notna x)) xs then map upcast xs else xs.
Proof.
  intros Hxs. unfold infer_column.
  assert (Hstr : forallb (fun x => match x with CStr _ => false | _ => true end) xs
                 = true)
    by (induction Hxs as [|x xs [-> | (n & ->)] _ IH]; cbn; auto).
  assert (Hgap : existsb (fun x => match x with
                                   | CNone | CFloat _ => true
                                   | _ => false
                                   end) xs
                 = existsb (fun x => negb (notna x)) xs)
    by (clear Hstr; induction Hxs as [|x xs [-> | (n & ->)] _ IH]; cbn;
        [reflexivity | reflexivity | exact IH]).
  now rewrite Hstr, Hgap.
Qed.

(** A column without integers is kept as it is. *)
Lemma infer_column_other xs :
  Forall (fun x => forall n, x <> CInt n) xs ->
  infer_column xs = xs /\ map upcast xs = xs.
Proof.
  intros Hxs.
  assert (Hmap : map upcast xs = xs).
  { induction Hxs as [|x xs Hx _ IH]; [reflexivity|]. cbn [map].
    rewrite IH. f_equal. destruct x; try reflexivity. now destruct (Hx n). }
  split; [|exact Hmap]. unfold infer_column. rewrite Hmap. now destruct (_ && _).
Qed.

Lemma has_gap_column results k :
  has_gap results k
  = existsb (fun x => negb (notna x)) (map (fun d => dict_get d k) results).
Proof.
  unfold has_gap. induction results as [|d ds IH]; cbn; [reflexivity|].
  now rewrite IH.
Qed.

(** Each column of the frame holds the values of its key, one for each
    record: the values as parsed, the integers turned into floats in a
    column with a gap. *)
Lemma DataFrame_cells content results k :
  parse_content content = Ok results -> results <> [] -> In k record_keys ->
  column (DataFrame results) k
  = map (fun d => typed results k (dict_get d k)) results.
Proof.
  intros Hp Hne Hk.
  rewrite (DataFrame_column results k Hne (parse_content_keys _ _ Hp) Hk).
  pose proof (parse_content_typed _ _ Hp) as Ht.
  assert (Hcol : map (fun d => typed results k (dict_get d k)) results
                 = if has_gap results k
                   then map upcast (map (fun d => dict_get d k) results)
                   else map (fun d => dict_get d k) results).
  { unfold typed. destruct (has_gap results k); [|reflexivity].
    now rewrite map_map. }
  rewrite Hcol, has_gap_column.
  destruct (existsb (str_eqb k) int_keys) eqn:Hint.
  - apply infer_column_ints. apply Forall_map.
    eapply Forall_impl; [|exact Ht]. intros d Hd. specialize (Hd k Hk).
    now rewrite Hint in Hd.
  - destruct (infer_column_other (map (fun d => dict_get d k) results))
      as [H1 H2].
    + apply Forall_map. eapply Forall_impl; [|exact Ht].
      intros d Hd. specialize (Hd k Hk). now rewrite Hint in Hd.
    + rewrite H1, H2. now destruct (existsb (fun x => negb (notna x)) _).
Qed.

(** X9: a CSV file is written only where [--csv] says, in a run without
    [--compact] that ends with status 0; the frame written has the
    sixteen keys as labels and a row for each record, and, the integers
    of the records fitting in 64 bits, it is the frame that pandas
    makes of the records: each cell is the value as parsed, or the
    float of it for an integer in a column where a record has no
    value. *)
Theorem a_written_csv_is_the_frame_of_the_records a p df :
  In (ToCsv p df) (trace (exec (main E a))) ->
  csv a = Some p /\ p <> [] /\ compact a = false
  /\ exit_status (exec (main E a)) = 0
  /\ exists content results,
       read_file E (logfile a) = Ok content
       /\ parse_content content = Ok results
       /\ columns df = record_keys
       /\ has_rows (length results) df
       /\ (ints_fit results ->
           df = DataFrame results
           /\ forall k, In k record_keys ->
                column df k
                = map (fun d => typed results k (dict_get d k)) results)
       /\ forall q df', In (ToCsv q df') (trace (exec (main E a))) ->
                        q = p /\ df' = df.
Proof.
  intros Hin.
  destruct (main_run a)
    as [Hn Hc | f Ha Hf | content results Ha Hc Hr Hp Hne
        | content results Ha Hc Hr Hp Hne Hcsv
        | content results c path u Ha Hc Hr Hp Hne Hcsv Hw
        | content results c path e Ha Hc Hr Hp Hne Hcsv Hw];
    cbn [trace fst exit_status snd] in Hin |- *; event_cases Hin.
  subst p df.
  pose proof (parse_content_keys _ _ Hp) as Hk.
  split; [exact Hcsv|]. split; [discriminate|]. split; [exact Hc|].
  split; [reflexivity|]. exists content, results.
  split; [exact Hr|]. split; [exact Hp|].
  split; [now apply DataFrame_columns|].
  split; [apply DataFrame_rows|].
  split; [intros _; split; [reflexivity|];
          intros k Hin'; now apply (DataFrame_cells content)|].
  intros q df' Hq. event_cases Hq. now subst.
Qed.

(** X10: a table is printed only without [--no-screen] and [--compact];
    it has the sixteen keys as labels and a row for each record, the
    number of runs printed after it is the number of its rows, and, the
    integers of the records fitting in 64 bits, it is the frame that
    pandas makes of the records, none of its cells formatted: each is
    the value as parsed, or the float of it for an integer in a column
    where a record has no value. *)
Theorem the_table_shown_is_the_frame_of_the_records a df :
  In (Stdout (Table df)) (trace (exec (main E a))) ->
  no_screen a = false /\ compact a = false
  /\ exists content results,
       read_file E (logfile a) = Ok content
       /\ parse_content content = Ok results
       /\ columns df = record_keys
       /\ has_rows (length results) df
       /\ (ints_fit results ->
           df = DataFrame results
           /\ forall k, In k record_keys ->
                column df k
                = map (fun d => typed results k (dict_get d k)) results)
       /\ In (Stdout (Text (nl ++ L "Total runs parsed: "
                               ++ str_of_int (Z.of_nat (length results)))))
             (trace (exec (main E a))).
Proof.
  intros Hin.
  assert (Hscreen : forall results,
             In (Stdout (Table df)) (screen results (DataFrame results)) ->
             df = DataFrame results).
  { intros results H. cbn in H.
    destruct H as [H | [H | [H | [H | []]]]]; try discriminate H.
    now injection H. }
  assert (Hlast : forall results df',
             In (Stdout (Text (nl ++ L "Total runs parsed: "
                                  ++ str_of_int (Z.of_nat (length results)))))
                (screen results df'))
    by (intros; cbn; auto).
  destruct (main_run a)
    as [Hn Hc | f Ha Hf | content results Ha Hc Hr Hp Hne
        | content results Ha Hc Hr Hp Hne Hcsv
        | content results c path u Ha Hc Hr Hp Hne Hcsv Hw
        | content results c path e Ha Hc Hr Hp Hne Hcsv Hw];
    cbn [trace fst] in Hin |- *;
    try (event_cases Hin; fail);
    (destruct (no_screen a) eqn:Hn; [event_cases Hin; fail|]);
    (assert (Hdf : df = DataFrame results)
      by (destruct Hin as [Hin | Hin]; [discriminate Hin|];
          try apply in_app_or in Hin as [Hin | Hin];
          first [now apply Hscreen | event_cases Hin]));
    subst df; pose proof (parse_content_keys _ _ Hp) as Hk;
    (split; [reflexivity|]); (split; [exact Hc|]);
    exists content, results;
    (split; [exact Hr|]); (split; [exact Hp|]);
    (split; [now apply DataFrame_columns|]);
    (split; [apply DataFrame_rows|]);
    (split; [intros _; split; [reflexivity|];
             intros k Hin'; now apply (DataFrame_cells content)|]);
    right; try (apply in_or_app; left); apply Hlast.
Qed.

(** X11: with [--compact] no run gets to its end: nothing is written to
    standard output, no file is written, and the exit status is 1 or 2,
    whatever the log holds. *)
Theorem compact_run_shows_and_saves_nothing a :
  compact a = true ->
  (exit_status (exec (main E a)) = 1 \/ exit_status (exec (main E a)) = 2)
  /\ (forall o, ~ In (Stdout o) (trace (exec (main E a))))
  /\ (forall p df, ~ In (ToCsv p df) (trace (exec (main E a)))).
Proof.
  intros Hc.
  destruct (main_run a); try congruence; cbn [exit_status snd trace fst];
    (split; [auto|]); split; intros; intros Hin; event_cases Hin.
Qed.

(** X12: a log without the marker of a run, an empty log among them, has no
    segments and no records, and the run says that it found no results. *)
Theorem log_without_marker_has_no_results a content :
  accepted a -> read_file E (logfile a) = Ok content ->
  contains run_marker content = false ->
  runs_of content = []
  /\ parse_content content = Ok []
  /\ exec (main E a)
     = ([Open (logfile a);
         Stderr (L "No benchmark results found in the log file.")],
        inl (SysExit 1)).
Proof.
  intros Ha Hr Hc. pose proof (runs_of_no_marker _ Hc) as Hruns.
  assert (Hp : parse_content content = Ok [])
    by (unfold parse_content; now rewrite Hruns).
  split; [exact Hruns|]. split; [exact Hp|].
  exact (main_no_results E a content Ha Hr Hp).
Qed.

(** X13: one segment on which a conversion fails is enough for the whole run
    to fail: the records of the other segments are lost, nothing is
    shown or saved, and the error is reported as a parse error. *)
Theorem one_malformed_segment_fails_the_run a content :
  accepted a -> read_file E (logfile a) = Ok content ->
  Exists malformed (runs_of content) ->
  exists msg,
    parse_content content = Raise (ValueError msg)
    /\ exec (main E a)
       = ([Open (logfile a); Stderr (L "Error parsing log file: " ++ msg)],
          inl (SysExit 1)).
Proof.
  intros Ha Hr Hex.
  destruct (malformed_segment_ends_the_parse content Hex) as (msg & Hp).
  exists msg. split; [exact Hp|].
  exact (main_parse_error E a content _ Ha Hr Hp).
Qed.

End WithFloat.

(** *** The sample log *)

Lemma sample_parse : @parse_content Decimal.model Sample.log = Ok Sample.records.
Proof. reflexivity. Qed.

Lemma sample_records : Sample.records <> [].
Proof. discriminate. Qed.

Lemma no_screen_witness :
  no_screen quiet_csv = true
  /\ forall o,
       ~ In (Stdout o)
            (trace (exec (@main Decimal.model (Sample.disk Sample.log) quiet_csv))).
Proof.
  split; [reflexivity|]. intros o.
  exact (no_screen_prints_nothing (Sample.disk Sample.log) quiet_csv o eq_refl).
Defined.

Lemma compact_witness :
  compact Sample.with_compact_csv = true
  /\ ((exit_status (exec (@main Decimal.model (Sample.disk Sample.log)
                            Sample.with_compact_csv)) = 1
       \/ exit_status (exec (@main Decimal.model (Sample.disk Sample.log)
                               Sample.with_compact_csv)) = 2)
      /\ (forall o,
            ~ In (Stdout o)
                 (trace (exec (@main Decimal.model (Sample.disk Sample.log)
                                 Sample.with_compact_csv))))
      /\ (forall p df,
            ~ In (ToCsv p df)
                 (trace (exec (@main Decimal.model (Sample.disk Sample.log)
                                 Sample.with_compact_csv))))).
Proof.
  split; [reflexivity|].
  exact (compact_run_shows_and_saves_nothing (Sample.disk Sample.log)
           Sample.with_compact_csv eq_refl).
Defined.

Lemma sample_missing :
  exec (@main Decimal.model (Sample.disk Sample.log) Sample.elsewhere)
  = ([Open (L "missing.log"); Stderr (report Sample.elsewhere Missing)],
     inl (SysExit 1)).
Proof.
  apply (main_fails (Sample.disk Sample.log) Sample.elsewhere Missing eq_refl).
  eapply fails_missing. reflexivity.
Qed.

Lemma log_opened_witness :
  In (Open (L "missing.log"))
     (trace (exec (@main Decimal.model (Sample.disk Sample.log) Sample.elsewhere)))
  /\ (L "missing.log" = logfile Sample.elsewhere /\ accepted Sample.elsewhere
      /\ exists rest,
           trace (exec (@main Decimal.model (Sample.disk Sample.log) Sample.elsewhere))
           = Open (logfile Sample.elsewhere) :: rest
           /\ forall q, ~ In (Open q) rest).
Proof.
  assert (H : In (Open (L "missing.log"))
                 (trace (exec (@main Decimal.model (Sample.disk Sample.log)
                                 Sample.elsewhere))))
    by (rewrite sample_missing; left; reflexivity).
  split; [exact H|].
  exact (log_is_opened_first_and_once (Sample.disk Sample.log) Sample.elsewhere
           (L "missing.log") H).
Defined.

Lemma sample_saved :
  In (ToCsv (L "out.csv") (DataFrame Sample.records))
     (trace (exec (@main Decimal.model (Sample.disk Sample.log) Sample.with_csv))).
Proof.
  pose proof (main_full (Sample.disk Sample.log) Sample.with_csv Sample.log
                Sample.records eq_refl eq_refl eq_refl sample_parse
                sample_records) as Hm.
  cbv zeta in Hm. rewrite Hm. cbn [csv Sample.with_csv L list_ascii_of_string].
  cbn [write_file Sample.disk no_screen trace fst].
  right. apply in_or_app. right. left. reflexivity.
Qed.

Lemma written_csv_witness :
  In (ToCsv (L "out.csv") (DataFrame Sample.records))
     (trace (exec (@main Decimal.model (Sample.disk Sample.log) Sample.with_csv)))
  /\ (csv Sample.with_csv = Some (L "out.csv") /\ L "out.csv" <> []
      /\ compact Sample.with_csv = false
      /\ exit_status (exec (@main Decimal.model (Sample.disk Sample.log)
                              Sample.with_csv)) = 0
      /\ exists content results,
           read_file (Sample.disk Sample.log) (logfile Sample.with_csv) = Ok content
           /\ @parse_content Decimal.model content = Ok results
           /\ columns (DataFrame Sample.records) = record_keys
           /\ has_rows (length results) (DataFrame Sample.records)
           /\ (ints_fit results ->
               DataFrame Sample.records = DataFrame results
               /\ forall k, In k record_keys ->
                    column (DataFrame Sample.records) k
                    = map (fun d => typed results k (dict_get d k)) results)
           /\ forall q df',
                In (ToCsv q df')
                   (trace (exec (@main Decimal.model (Sample.disk Sample.log)
                                   Sample.with_csv))) ->
                q = L "out.csv" /\ df' = DataFrame Sample.records).
Proof.
  split; [exact sample_saved|].
  exact (a_written_csv_is_the_frame_of_the_records (Sample.disk Sample.log)
           Sample.with_csv (L "out.csv") (DataFrame Sample.records) sample_saved).
Defined.

Lemma sample_shown :
  In (Stdout (Table (DataFrame Sample.records)))
     (trace (exec (@main Decimal.model (Sample.disk Sample.log) Sample.plain))).
Proof.
  pose proof (main_full (Sample.disk Sample.log) Sample.plain Sample.log
                Sample.records eq_refl eq_refl eq_refl sample_parse
                sample_records) as Hm.
  cbv zeta in Hm. rewrite Hm. cbn [csv Sample.plain no_screen trace fst].
  unfold screen. do 3 right. left. reflexivity.
Qed.

Lemma table_shown_witness :
  In (Stdout (Table (DataFrame Sample.records)))
     (trace (exec (@main Decimal.model (Sample.disk Sample.log) Sample.plain)))
  /\ (no_screen Sample.plain = false /\ compact Sample.plain = false
      /\ exists content results,
           read_file (Sample.disk Sample.log) (logfile Sample.plain) = Ok content
           /\ @parse_content Decimal.model content = Ok results
           /\ columns (DataFrame Sample.records) = record_keys
           /\ has_rows (length results) (DataFrame Sample.records)
           /\ (ints_fit results ->
               DataFrame Sample.records = DataFrame results
               /\ forall k, In k record_keys ->
                    column (DataFrame Sample.records) k
                    = map (fun d => typed results k (dict_get d k)) results)
           /\ In (Stdout (Text (nl ++ L "Total runs parsed: "
                                   ++ str_of_int (Z.of_nat (length results)))))
                 (trace (exec (@main Decimal.model (Sample.disk Sample.log)
                                 Sample.plain)))).
Proof.
  split; [exact sample_shown|].
  exact (the_table_shown_is_the_frame_of_the_records (Sample.disk Sample.log)
           Sample.plain (DataFrame Sample.records) sample_shown).
Defined.

Lemma no_marker_witness :
  accepted Sample.plain
  /\ read_file (Sample.disk (L "nothing was run")) (logfile Sample.plain)
     = Ok (L "nothing was run")
  /\ contains run_marker (L "nothing was run") = false
  /\ (runs_of (L "nothing was run") = []
      /\ @parse_content Decimal.model (L "nothing was run") = Ok []
      /\ exec (@main Decimal.model (Sample.disk (L "nothing was run")) Sample.plain)
         = ([Open (logfile Sample.plain);
             Stderr (L "No benchmark results found in the log file.")],
            inl (SysExit 1))).
Proof.
  split; [reflexivity|]. split; [reflexivity|]. split; [reflexivity|].
  exact (log_without_marker_has_no_results (Sample.disk (L "nothing was run"))
           Sample.plain (L "nothing was run") eq_refl eq_refl eq_refl).
Defined.

Lemma bare_comma_malformed :
  Exists malformed (runs_of Sample.log_with_bare_comma).
Proof.
  assert (Hruns : exists run, runs_of Sample.log_with_bare_comma = [run]
                              /\ search header_re run <> None
                              /\ search (labelled (L "Total input tokens:")
                                           digit_comma) run = Some [L ","]).
  { eexists. split; [vm_compute; reflexivity|].
    split; vm_compute; [discriminate | reflexivity]. }
  destruct Hruns as (run & -> & Hh & Hs). apply Exists_cons_hd. split.
  - destruct (search header_re run) as [m|] eqn:Hm; [|contradiction].
    now apply header_search_some in Hm.
  - left. apply Exists_cons_hd.
    apply search_labelled_some in Hs as (g & [= <-] & Hf).
    exists (L ","). split; [exact Hf | reflexivity].
Qed.

Lemma malformed_segment_witness :
  accepted Sample.plain
  /\ read_file (Sample.disk Sample.log_with_bare_comma) (logfile Sample.plain)
     = Ok Sample.log_with_bare_comma
  /\ Exists malformed (runs_of Sample.log_with_bare_comma)
  /\ exists msg,
       @parse_content Decimal.model Sample.log_with_bare_comma
       = Raise (ValueError msg)
       /\ exec (@main Decimal.model (Sample.disk Sample.log_with_bare_comma)
                  Sample.plain)
          = ([Open (logfile Sample.plain);
              Stderr (L "Error parsing log file: " ++ msg)],
             inl (SysExit 1)).
Proof.
  split; [reflexivity|]. split; [reflexivity|].
  split; [exact bare_comma_malformed|].
  exact (one_malformed_segment_fails_the_run
           (Sample.disk Sample.log_with_bare_comma) Sample.plain
           Sample.log_with_bare_comma eq_refl eq_refl bare_comma_malformed).
Defined.

End MainLaws.

(* ================================================================= *)
(** ** The formatter on any frame *)

Module FormatLaws.
Import Re Py BenchmarkParser Spec ReFacts PyFacts ParserFacts ReportFacts.
Import Laws PyLaws.

Section WithFloat.
Context {FM : Float}.

Lemma str_eqb_neq a b : a <> b -> str_eqb a b = false.
Proof.
  intros Hne. destruct (str_eqb a b) eqn:Hab; [|reflexivity].
  now apply str_eqb_eq in Hab.
Qed.

(** *** Cells *)

Lemma fmt_float_cell x y : fmt_float x = Ok y -> kept_or_text x y.
Proof.
  unfold fmt_float, kept_or_text.
  destruct x as [s|n|v|]; cbn [notna];
    [discriminate | destruct (Z.abs n <? float_overflow) | |];
    intros [= <-]; eauto.
Qed.

Lemma fmt_int_cell x y : fmt_int x = Ok y -> kept_or_text x y.
Proof.
  unfold fmt_int, kept_or_text. destruct (notna x) eqn:Hx.
  - intros Hb. apply bind_ok in Hb as (n & _ & Hb).
    apply bind_ok in Hb as (s & _ & [= <-]). eauto.
  - intros [= <-]. auto.
Qed.

Lemma apply_cells f xs : forall ys,
  apply f xs = Ok ys -> Forall2 (fun x y => f x = Ok y) xs ys.
Proof.
  induction xs as [|x xs IH]; intros ys Ha; cbn in Ha.
  - injection Ha as <-. constructor.
  - apply bind_ok in Ha as (y & Hy & Ha).
    apply bind_ok in Ha as (ys' & Hys & [= <-]). constructor; auto.
Qed.

Lemma kept_or_text_refl xs : Forall2 kept_or_text xs xs.
Proof. induction xs; constructor; [left; reflexivity | assumption]. Qed.

Lemma kept_or_text_trans : forall xs ys zs,
  Forall2 kept_or_text xs ys -> Forall2 kept_or_text ys zs ->
  Forall2 kept_or_text xs zs.
Proof.
  intros xs ys zs H. revert zs.
  induction H as [|x y xs ys Hxy _ IH]; intros zs Hz; inversion Hz; subst;
    constructor; auto.
  destruct Hxy as [-> | [Hx (s & ->)]]; [assumption|].
  match goal with H : kept_or_text (CStr s) _ |- _ => destruct H as [-> | [_ (s' & ->)]] end;
    right; eauto.
Qed.

(** *** Frames *)

Lemma same_shape_refl v : same_shape v v.
Proof.
  induction v; constructor; [|assumption].
  split; [reflexivity | apply kept_or_text_refl].
Qed.

Lemma same_shape_trans : forall u v w,
  same_shape u v -> same_shape v w -> same_shape u w.
Proof.
  intros u v w H. revert w.
  induction H as [|a b u v [Hl Hc] _ IH]; intros w Hw; inversion Hw; subst;
    constructor; [|apply IH; assumption].
  match goal with H : _ /\ _ |- _ => destruct H as [Hl' Hc'] end.
  split; [congruence | eapply kept_or_text_trans; eauto].
Qed.

Lemma same_shape_columns v v' : same_shape v v' -> columns v' = columns v.
Proof.
  unfold columns.
  induction 1 as [|a b v v' [Hl _] _ IH]; [reflexivity|].
  cbn [map]. now rewrite Hl, IH.
Qed.

Lemma column_first v col kv :
  NoDup (columns v) -> In kv v -> str_eqb (fst kv) col = true ->
  column v col = snd kv.
Proof.
  unfold column. induction v as [|kv' v IH]; intros Hnd Hin Heq; [contradiction|].
  cbn [find]. inversion Hnd as [|? ? Hnotin Hnd']; subst.
  destruct Hin as [-> | Hin].
  - rewrite Heq. now destruct kv.
  - destruct (str_eqb (fst kv') col) eqn:Hk.
    + exfalso. apply Hnotin. apply str_eqb_eq in Hk, Heq.
      rewrite Hk, <- Heq. now apply in_map.
    + auto.
Qed.

Lemma setitem_shape v col xs :
  NoDup (columns v) -> Forall2 kept_or_text (column v col) xs ->
  same_shape v (setitem v col xs).
Proof.
  intros Hnd Hxs. unfold same_shape, setitem.
  assert (Hall : forall kv, In kv v -> str_eqb (fst kv) col = true ->
                            Forall2 kept_or_text (snd kv) xs)
    by (intros kv Hin Hk; now rewrite <- (column_first v col kv Hnd Hin Hk)).
  clear Hnd Hxs. induction v as [|kv v IH]; [constructor|].
  cbn [map]. constructor.
  - destruct (str_eqb (fst kv) col) eqn:Hk; cbn [fst snd].
    + split; [symmetry; now apply str_eqb_eq|].
      apply Hall; [now left | exact Hk].
    + split; [reflexivity | apply kept_or_text_refl].
  - apply IH. intros kv' Hin. apply Hall. now right.
Qed.

Lemma column_setitem_other v col xs c :
  c <> col -> column (setitem v col xs) c = column v c.
Proof.
  intros Hne. unfold column, setitem.
  induction v as [|kv v IH]; [reflexivity|]. cbn [map find].
  destruct (str_eqb (fst kv) col) eqn:Hk; cbn [fst].
  - apply str_eqb_eq in Hk. rewrite Hk.
    rewrite (str_eqb_neq col c) by congruence. exact IH.
  - destruct (str_eqb (fst kv) c); [now destruct kv | exact IH].
Qed.

Lemma column_setitem_same v col xs :
  has_column v col = true -> column (setitem v col xs) col = xs.
Proof.
  unfold has_column, columns, column, setitem.
  induction v as [|kv v IH]; [discriminate|]. cbn [map existsb find].
  intros Hh. destruct (str_eqb (fst kv) col) eqn:Hk; cbn [fst].
  - now rewrite str_eqb_refl.
  - rewrite Hk. apply IH.
    destruct (str_eqb col (fst kv)) eqn:Hk'; [|exact Hh].
    apply str_eqb_eq in Hk'. subst col. now rewrite str_eqb_refl in Hk.
Qed.

(** *** The heap *)

Lemma length_update : forall h r v, length (update h r v) = length h.
Proof.
  induction h as [|x h IH]; intros [|r] v; cbn; auto.
Qed.

Lemma nth_update : forall h r v,
  (r < length h)%nat -> nth r (update h r v) [] = v.
Proof.
  induction h as [|x h IH]; intros [|r] v Hr; cbn in *; try lia; auto.
  apply IH. lia.
Qed.

Lemma has_column_in_heap r h c :
  has_column (nth r h []) c = true -> (r < length h)%nat.
Proof.
  intros Hh. destruct (Nat.lt_ge_cases r (length h)) as [|Hge]; [assumption|].
  rewrite nth_overflow in Hh by exact Hge. discriminate Hh.
Qed.

(** *** One pass over the labels *)

Lemma format_cols_cons f col cols r h :
  format_cols f (col :: cols) r h
  = if has_column (nth r h []) col then
      match apply f (column (nth r h []) col) with
      | Ok xs =>
          format_cols f cols r (update h r (setitem (nth r h []) col xs))
      | Raise e => (([], inl (Uncaught e)), h)
      end
    else format_cols f cols r h.
Proof.
  cbn [format_cols]. unfold pbind, deref, when.
  destruct (has_column (nth r h []) col).
  - unfold pbind, lift, assign.
    destruct (apply f (column (nth r h []) col)) as [xs|e]; [|reflexivity].
    now destruct (format_cols f cols r _) as [[tr res] h1].
  - unfold pret. now destruct (format_cols f cols r h) as [[tr res] h1].
Qed.

Lemma format_cols_spec f cols r :
  (forall x y, f x = Ok y -> kept_or_text x y) ->
  forall h tr res h',
    format_cols f cols r h = ((tr, res), h') ->
    NoDup (columns (nth r h [])) ->
    tr = [] /\ length h' = length h
    /\ same_shape (nth r h []) (nth r h' [])
    /\ (forall c, ~ In c cols ->
          column (nth r h' []) c = column (nth r h []) c)
    /\ (res = inr tt \/ exists e, res = inl (Uncaught e))
    /\ (res = inr tt -> NoDup cols ->
        forall c, In c cols -> has_column (nth r h []) c = true ->
          apply f (column (nth r h []) c) = Ok (column (nth r h' []) c)).
Proof.
  intros Hf. induction cols as [|col cols IH]; intros h tr res h' Hrun Hnd.
  - cbn in Hrun. injection Hrun as <- <- <-.
    repeat split; auto using same_shape_refl. intros _ _ c [].
  - rewrite format_cols_cons in Hrun.
    destruct (has_column (nth r h []) col) eqn:Hh.
    + destruct (apply f (column (nth r h []) col)) as [xs|e] eqn:Ha.
      * pose proof (has_column_in_heap _ _ _ Hh) as Hr.
        set (v := nth r h []) in *. set (v1 := setitem v col xs) in *.
        assert (Hs1 : same_shape v v1).
        { apply setitem_shape; [exact Hnd|].
          apply apply_cells in Ha. clear -Ha Hf.
          induction Ha; constructor; auto. }
        pose proof (same_shape_columns _ _ Hs1) as Hc1.
        assert (Hv1 : nth r (update h r v1) [] = v1) by now apply nth_update.
        apply IH in Hrun; [|rewrite Hv1, Hc1; exact Hnd].
        rewrite Hv1, length_update in Hrun.
        destruct Hrun as (-> & Hlen & Hs & Hother & Hres & Hvals).
        split; [reflexivity|]. split; [exact Hlen|].
        split; [eapply same_shape_trans; eassumption|].
        split; [|split; [exact Hres|]].
        -- intros c Hc. rewrite Hother by (intros Hin; apply Hc; now right).
           apply column_setitem_other. intros ->. apply Hc. now left.
        -- intros Hok Hnd' c Hin Hhc. inversion Hnd' as [|? ? Hnotin Hnd'']; subst.
           destruct Hin as [<- | Hin].
           ++ rewrite Ha, (Hother col Hnotin). f_equal. symmetry.
              now apply column_setitem_same.
           ++ assert (Hne : c <> col) by (intros ->; contradiction).
              rewrite <- (column_setitem_other v col xs c Hne).
              apply Hvals; auto. fold v1.
              unfold has_column in Hhc |- *. now rewrite Hc1.
      * injection Hrun as <- <- <-.
        repeat split; eauto using same_shape_refl. discriminate.
    + apply IH in Hrun; [|exact Hnd].
      destruct Hrun as (-> & Hlen & Hs & Hother & Hres & Hvals).
      repeat split; auto.
      * intros c Hc. apply Hother. intros Hin. apply Hc. now right.
      * intros Hok Hnd' c Hin Hhc. inversion Hnd'; subst.
        destruct Hin as [<- | Hin]; [congruence | auto].
Qed.

(** *** The formatter *)

Lemma numeric_cols_nodup : NoDup numeric_cols.
Proof.
  unfold numeric_cols.
  repeat (constructor; [cbn [In]; intuition discriminate|]). constructor.
Qed.

Lemma integer_cols_nodup : NoDup integer_cols.
Proof.
  unfold integer_cols.
  repeat (constructor; [cbn [In]; intuition discriminate|]). constructor.
Qed.

Lemma cols_disjoint c : In c numeric_cols -> ~ In c integer_cols.
Proof.
  unfold numeric_cols, integer_cols. cbn [In].
  intros H1 H2. intuition (subst; discriminate).
Qed.

Lemma format_dataframe_run r h tr res h' :
  format_dataframe r h = ((tr, res), h') ->
  exists tr1 res1 h1,
    format_cols fmt_float numeric_cols r h = ((tr1, res1), h1)
    /\ match res1 with
       | inl s => tr = tr1 /\ res = inl s /\ h' = h1
       | inr _ =>
           exists tr2 res2,
             format_cols fmt_int integer_cols r h1 = ((tr2, res2), h')
             /\ match res2 with
                | inl s => tr = tr1 ++ tr2 /\ res = inl s
                | inr _ => tr = tr1 ++ tr2 ++ [] /\ res = inr r
                end
       end.
Proof.
  unfold format_dataframe, pbind. intros Hrun.
  destruct (format_cols fmt_float numeric_cols r h) as [[tr1 res1] h1].
  exists tr1, res1, h1. split; [reflexivity|].
  destruct res1 as [s|u]; [now injection Hrun as <- <- <-|].
  destruct (format_cols fmt_int integer_cols r h1) as [[tr2 res2] h2].
  exists tr2, res2. destruct res2 as [s|u2]; unfold pret in Hrun;
    injection Hrun as <- <- <-; auto.
Qed.

(** X14: whether it gets to its end or raises on the way, the formatter
    prints nothing, changes the frame it is given and no other, and
    keeps the labels, their order and the number of rows; a cell is
    left as it is or a text is put for its value, so that a cell
    without a value stays without one; the columns that it does not name
    are as before. *)
Theorem formatting_keeps_the_shape r h tr res h' :
  format_dataframe r h = ((tr, res), h') ->
  NoDup (columns (nth r h [])) ->
  tr = [] /\ length h' = length h
  /\ (forall r', r' <> r -> nth r' h' [] = nth r' h [])
  /\ same_shape (nth r h []) (nth r h' [])
  /\ (forall c, ~ In c (numeric_cols ++ integer_cols) ->
        column (nth r h' []) c = column (nth r h []) c)
  /\ (res = inr r \/ exists e, res = inl (Uncaught e)).
Proof.
  intros Hrun Hnd.
  pose proof (format_dataframe_other r h _ h' Hrun) as Hothers.
  apply format_dataframe_run in Hrun as (tr1 & res1 & h1 & H1 & Hrest).
  apply (format_cols_spec _ _ _ fmt_float_cell) in H1 as
    (-> & Hl1 & Hs1 & Ho1 & Hr1 & _); [|exact Hnd].
  destruct res1 as [s|[]].
  - destruct Hrest as (-> & -> & ->).
    split; [reflexivity|]. split; [exact Hl1|]. split; [exact Hothers|].
    split; [exact Hs1|]. split.
    + intros c Hc. apply Ho1. intros Hin. apply Hc, in_or_app. now left.
    + right. destruct Hr1 as [[=] | (e & [= ->])]. eauto.
  - destruct Hrest as (tr2 & res2 & H2 & Hrest).
    apply (format_cols_spec _ _ _ fmt_int_cell) in H2 as
      (-> & Hl2 & Hs2 & Ho2 & Hr2 & _);
      [|rewrite (same_shape_columns _ _ Hs1); exact Hnd].
    split; [now destruct res2 as [s|[]]; destruct Hrest as [-> _]|].
    split; [congruence|]. split; [exact Hothers|].
    split; [eapply same_shape_trans; eassumption|]. split.
    + intros c Hc. rewrite Ho2, Ho1; auto;
        intros Hin; apply Hc, in_or_app; auto.
    + destruct res2 as [s|[]]; destruct Hrest as [_ ->]; [|now left].
      right. destruct Hr2 as [[=] | (e & [= ->])]. eauto.
Qed.

(** X15: when the formatter gets to its end, each column that it names and
    the frame has holds, cell by cell, the format of what it held: two
    decimals for the seven rates and latencies, grouped digits for the
    two token counts. *)
Theorem formatted_columns_hold_the_formats r h tr r0 h' :
  format_dataframe r h = ((tr, inr r0), h') ->
  NoDup (columns (nth r h [])) ->
  (forall c, In c numeric_cols -> has_column (nth r h []) c = true ->
     Forall2 (fun x y => fmt_float x = Ok y)
             (column (nth r h []) c) (column (nth r h' []) c))
  /\ (forall c, In c integer_cols -> has_column (nth r h []) c = true ->
        Forall2 (fun x y => fmt_int x = Ok y)
                (column (nth r h []) c) (column (nth r h' []) c)).
Proof.
  intros Hrun Hnd.
  apply format_dataframe_run in Hrun as (tr1 & res1 & h1 & H1 & Hrest).
  apply (format_cols_spec _ _ _ fmt_float_cell) in H1 as
    (-> & Hl1 & Hs1 & Ho1 & Hr1 & Hv1); [|exact Hnd].
  destruct res1 as [s|[]]; [destruct Hrest as (_ & [=] & _)|].
  destruct Hrest as (tr2 & res2 & H2 & Hrest).
  apply (format_cols_spec _ _ _ fmt_int_cell) in H2 as
    (-> & Hl2 & Hs2 & Ho2 & Hr2 & Hv2);
    [|rewrite (same_shape_columns _ _ Hs1); exact Hnd].
  destruct res2 as [s|[]]; [destruct Hrest as (_ & [=])|].
  split; intros c Hin Hh; apply apply_cells.
  - rewrite (Ho2 c (cols_disjoint c Hin)).
    apply Hv1; auto using numeric_cols_nodup.
  - assert (Hnot : ~ In c numeric_cols)
      by (intros Hin'; exact (cols_disjoint c Hin' Hin)).
    rewrite <- (Ho1 c Hnot).
    apply Hv2; auto using integer_cols_nodup.
    unfold has_column in Hh |- *.
    now rewrite (same_shape_columns _ _ Hs1).
Qed.

(** *** Formatting what is formatted *)

Lemma fmt_float_text x y :
  fmt_float x = Ok y -> none_or_text y /\ (notna x = true -> is_text y).
Proof.
  unfold fmt_float, none_or_text, is_text.
  destruct x as [s|n|v|]; cbn [notna];
    [discriminate | destruct (Z.abs n <? float_overflow) | |];
    intros [= <-]; split; eauto; discriminate.
Qed.

Lemma formats_are_texts xs ys :
  Forall2 (fun x y => fmt_float x = Ok y) xs ys ->
  Forall none_or_text ys
  /\ (Exists (fun x => notna x = true) xs -> Exists is_text ys).
Proof.
  induction 1 as [|x y xs ys Hxy _ [IH1 IH2]]; [split; [constructor | inversion 1]|].
  apply fmt_float_text in Hxy as [Hy Ht]. split; [now constructor|].
  intros Hex. apply Exists_cons in Hex as [Hx | Hex]; [left | right]; auto.
Qed.

Lemma apply_on_texts xs :
  Forall none_or_text xs ->
  (apply fmt_float xs = Ok xs /\ ~ Exists is_text xs)
  \/ exists msg, apply fmt_float xs = Raise (ValueError msg).
Proof.
  induction 1 as [|x xs Hx _ IH]; [left; split; [reflexivity | inversion 1]|].
  destruct Hx as [-> | (s & ->)]; [|right; eexists; reflexivity].
  cbn [apply fmt_float notna bind].
  destruct IH as [[-> Hno] | (msg & ->)];
    [left | right; eexists; reflexivity].
  split; [reflexivity|]. intros Hex.
  apply Exists_cons in Hex as [(s & [=]) | Hex]. contradiction.
Qed.

Lemma format_cols_on_texts cols r : forall h : heap,
  NoDup (columns (nth r h [])) ->
  (forall c, In c cols -> has_column (nth r h []) c = true ->
     Forall none_or_text (column (nth r h []) c)) ->
  (exists c, In c cols /\ has_column (nth r h []) c = true
             /\ Exists is_text (column (nth r h []) c)) ->
  exists msg h',
    format_cols fmt_float cols r h = (([], inl (Uncaught (ValueError msg))), h').
Proof.
  induction cols as [|col cols IH]; intros h Hnd Hall (c0 & Hin & Hh0 & Hex);
    [contradiction|].
  rewrite format_cols_cons.
  destruct (has_column (nth r h []) col) eqn:Hh.
  - destruct (apply_on_texts _ (Hall col (or_introl eq_refl) Hh))
      as [[Ha Hno] | (msg & Ha)]; rewrite Ha; [|eauto].
    pose proof (has_column_in_heap _ _ _ Hh) as Hr.
    set (v := nth r h []) in *.
    assert (Hcol : forall c, column (setitem v col (column v col)) c = column v c).
    { intros c. destruct (str_eqb c col) eqn:Hc.
      - apply str_eqb_eq in Hc. subst c. now apply column_setitem_same.
      - apply column_setitem_other. intros ->. now rewrite str_eqb_refl in Hc. }
    assert (Hcols : columns (setitem v col (column v col)) = columns v).
    { apply same_shape_columns, setitem_shape; [exact Hnd|].
      apply kept_or_text_refl. }
    apply IH; rewrite nth_update by exact Hr.
    + now rewrite Hcols.
    + intros c Hc Hhc. rewrite Hcol. apply Hall; [now right|].
      unfold has_column in Hhc |- *. now rewrite <- Hcols.
    + exists c0. destruct Hin as [<- | Hin]; [contradiction|].
      split; [exact Hin|]. rewrite Hcol. split; [|exact Hex].
      unfold has_column in Hh0 |- *. now rewrite Hcols.
  - apply IH; auto.
    + intros c Hc. apply Hall. now right.
    + exists c0. destruct Hin as [<- | Hin]; [congruence | auto].
Qed.

(** X16: the formatter is to be called once: when it has got to its end on
    a frame with a value in one of the columns of rates and latencies, a
    second call on that frame finds a text there and raises
    [ValueError]. *)
Theorem formatting_twice_raises r h tr r0 h' c :
  format_dataframe r h = ((tr, inr r0), h') ->
  NoDup (columns (nth r h [])) ->
  In c numeric_cols -> has_column (nth r h []) c = true ->
  Exists (fun x => notna x = true) (column (nth r h []) c) ->
  exists msg h'',
    format_dataframe r h' = (([], inl (Uncaught (ValueError msg))), h'').
Proof.
  intros Hrun Hnd Hc Hh Hex.
  apply format_dataframe_run in Hrun as (tr1 & res1 & h1 & H1 & Hrest).
  apply (format_cols_spec _ _ _ fmt_float_cell) in H1 as
    (-> & Hl1 & Hs1 & Ho1 & Hr1 & Hv1); [|exact Hnd].
  destruct res1 as [s|[]]; [destruct Hrest as (_ & [=] & _)|].
  destruct Hrest as (tr2 & res2 & H2 & Hrest).
  apply (format_cols_spec _ _ _ fmt_int_cell) in H2 as
    (-> & Hl2 & Hs2 & Ho2 & Hr2 & Hv2);
    [|rewrite (same_shape_columns _ _ Hs1); exact Hnd].
  assert (Hcols : columns (nth r h' []) = columns (nth r h [])).
  { rewrite (same_shape_columns _ _ Hs2). exact (same_shape_columns _ _ Hs1). }
  assert (Hvals : forall c', In c' numeric_cols ->
            has_column (nth r h []) c' = true ->
            Forall2 (fun x y => fmt_float x = Ok y)
                    (column (nth r h []) c') (column (nth r h' []) c')).
  { intros c' Hc' Hh'. apply apply_cells.
    rewrite (Ho2 c' (cols_disjoint c' Hc')).
    apply Hv1; auto using numeric_cols_nodup. }
  destruct (format_cols_on_texts numeric_cols r h') as (msg & h'' & Hsecond).
  - now rewrite Hcols.
  - intros c' Hc' Hh'. apply (formats_are_texts (column (nth r h []) c')).
    apply Hvals; [exact Hc'|]. unfold has_column in Hh' |- *.
    now rewrite <- Hcols.
  - exists c. split; [exact Hc|]. split.
    + unfold has_column in Hh |- *. now rewrite Hcols.
    + now apply (formats_are_texts (column (nth r h []) c)); [apply Hvals|].
  - exists msg, h''. unfold format_dataframe, pbind. now rewrite Hsecond.
Qed.

End WithFloat.

Lemma display_frame_formatted :
  @format_dataframe Decimal.model 0%nat [display_frame]
  = (([], inr 0%nat), [formatted_frame]).
Proof. reflexivity. Qed.

Lemma display_frame_labels : NoDup (columns (nth 0 [display_frame] [])).
Proof.
  cbn [nth display_frame columns map fst].
  repeat (constructor; [cbn [In]; intuition discriminate|]). constructor.
Qed.

Lemma formatting_witness :
  @format_dataframe Decimal.model 0%nat [display_frame]
  = (([], inr 0%nat), [formatted_frame])
  /\ NoDup (columns (nth 0 [display_frame] []))
  /\ ([] = @nil (@event Decimal.model)
      /\ length [formatted_frame] = length [display_frame]
      /\ (forall r', r' <> 0%nat ->
            nth r' [formatted_frame] [] = nth r' [display_frame] [])
      /\ same_shape (nth 0 [display_frame] []) (nth 0 [formatted_frame] [])
      /\ (forall c, ~ In c (numeric_cols ++ integer_cols) ->
            column (nth 0 [formatted_frame] []) c
            = column (nth 0 [display_frame] []) c)
      /\ (@inr stop ref 0%nat = inr 0%nat
          \/ exists e, @inr stop ref 0%nat = inl (Uncaught e))).
Proof.
  split; [exact display_frame_formatted|].
  split; [exact display_frame_labels|].
  exact (formatting_keeps_the_shape 0%nat [display_frame] [] (inr 0%nat)
           [formatted_frame] display_frame_formatted display_frame_labels).
Defined.

Lemma formats_witness :
  @format_dataframe Decimal.model 0%nat [display_frame]
  = (([], inr 0%nat), [formatted_frame])
  /\ NoDup (columns (nth 0 [display_frame] []))
  /\ ((forall c, In c numeric_cols ->
         has_column (nth 0 [display_frame] []) c = true ->
         Forall2 (fun x y => fmt_float x = Ok y)
                 (column (nth 0 [display_frame] []) c)
                 (column (nth 0 [formatted_frame] []) c))
      /\ (forall c, In c integer_cols ->
            has_column (nth 0 [display_frame] []) c = true ->
            Forall2 (fun x y => fmt_int x = Ok y)
                    (column (nth 0 [display_frame] []) c)
                    (column (nth 0 [formatted_frame] []) c))).
Proof.
  split; [exact display_frame_formatted|].
  split; [exact display_frame_labels|].
  exact (formatted_columns_hold_the_formats 0%nat [display_frame] [] 0%nat
           [formatted_frame] display_frame_formatted display_frame_labels).
Defined.

Lemma formatting_twice_witness :
  @format_dataframe Decimal.model 0%nat [display_frame]
  = (([], inr 0%nat), [formatted_frame])
  /\ NoDup (columns (nth 0 [display_frame] []))
  /\ In (L "Mean TTFT (ms)") numeric_cols
  /\ has_column (nth 0 [display_frame] []) (L "Mean TTFT (ms)") = true
  /\ Exists (fun x => notna x = true)
            (column (nth 0 [display_frame] []) (L "Mean TTFT (ms)"))
  /\ exists msg h'',
       @format_dataframe Decimal.model 0%nat [formatted_frame]
       = (([], inl (Uncaught (ValueError msg))), h'').
Proof.
  assert (Hin : In (L "Mean TTFT (ms)") numeric_cols)
    by (unfold numeric_cols; cbn [In]; do 5 right; left; reflexivity).
  assert (Hex : Exists (fun x => notna x = true)
                       (column (nth 0 [display_frame] []) (L "Mean TTFT (ms)")))
    by (apply Exists_cons_hd; reflexivity).
  split; [exact display_frame_formatted|].
  split; [exact display_frame_labels|].
  split; [exact Hin|]. split; [reflexivity|]. split; [exact Hex|].
  exact (formatting_twice_raises 0%nat [display_frame] [] 0%nat
           [formatted_frame] (L "Mean TTFT (ms)") display_frame_formatted
           display_frame_labels Hin eq_refl Hex).
Defined.

End FormatLaws.

(* ================================================================= *)
(** ** The port waiter while the port stays open *)

Module SocketWaitLaws.
Import ITree.ITree ITree.ITreeFacts ITree.Events.State ITree.Events.StateFacts.
Import ITree.Props.Leaf.
Import ITreeNotations.
Import SocketWait SocketWaitFacts Laws.
Local Open Scope itree_scope.

#[local] Arguments waiting_msg : simpl never.
#[local] Arguments closed_msg : simpl never.

Section Outcomes.
Variable outcomes : nat -> Z.
Variables (host : str) (port interval : Z).

(** One turn of the loop when the attempt connects. *)
Lemma turn_open w :
  outcomes (attempts w) = 0 ->
  interp_state (handle outcomes)
    (open <- is_port_open host port 2 ;;
     if open : bool
     then ITree.trigger (Sleep interval) ;; Ret (inl tt)
     else Ret (inr tt)) w
  ≈ Ret ({| attempts := S (attempts w);
            log := (log w ++ [Attempt host port 2]) ++ [Slept interval] |},
         @inl unit unit tt).
Proof.
  intros Hopen. unfold is_port_open.
  run_event. rewrite Hopen. cbn. rewrite bind_ret_l. cbn.
  run_event. rewrite interp_state_ret. reflexivity.
Qed.

(** While every attempt connects, the loop does not come to an end. *)
Lemma poll_goes_on w x :
  (forall j, outcomes j = 0) ->
  ~ Leaf x (interp_state (handle outcomes) (poll host port interval) w).
Proof.
  intros Hopen Hx. unfold poll in Hx.
  apply (Leaf_interp_state_iter_inv (handle outcomes) _
           (fun _ => True) (fun _ => True) (fun _ => False)) in Hx;
    [now destruct x as [w' []]; destruct Hx | | exact I | exact I].
  intros s [] _ _ sx Hsx.
  rewrite (turn_open s (Hopen _)) in Hsx.
  apply Leaf_Ret_inv in Hsx. subst sx. cbn. auto.
Qed.

End Outcomes.

(** X17: while the port stays open the script does not end: it has no final
    state and no exit status, whatever the host and the port. *)
Theorem waiter_goes_on_while_the_port_is_open outcomes host port :
  (forall j, outcomes j = 0) ->
  forall x, ~ run outcomes (script host port) ≈ Ret x.
Proof.
  intros Hopen x Hret.
  assert (Hx : Leaf x (run outcomes (script host port)))
    by (rewrite Hret; apply Leaf_Ret).
  rewrite (waiter_rounds outcomes host port 0) in Hx by (intros j Hj; lia).
  rewrite interp_state_bind in Hx.
  apply Leaf_bind_inv in Hx as (y & Hy & _).
  exact (poll_goes_on outcomes host port 5 _ y Hopen Hy).
Qed.

Lemma waiter_goes_on_witness :
  (forall j, always_open j = 0)
  /\ forall x, ~ run always_open (script (L "10.0.0.1") 8000) ≈ Ret x.
Proof.
  split; [reflexivity|].
  exact (waiter_goes_on_while_the_port_is_open always_open (L "10.0.0.1") 8000
           (fun j => eq_refl)).
Defined.

End SocketWaitLaws.
